(** * go_rainbowgif: a shallow embedding of [main.go]

    The development follows the source file top to bottom:
    - the image model ([image.Paletted], [color.Color], [gif.GIF]);
    - [prepareFrame], the palette remapper;
    - [parseGradientColors];
    - the worker goroutines of [main], as a small-step machine over the
      shared variables [frameIndex] and [normalizedFrameIndex];
    - [main] itself, as a function of its flags, of the outside world
      (file system and codec) and of a schedule of the goroutines.

    Go's [int] is taken to be 64 bits wide (the usual platform); [uint8]
    and [uint32] values are integers of [Z], wrapped where the code
    computes with them.

    The goroutines interleave at the statements of the source: a step is
    one statement of one goroutine, and memory is sequentially consistent.
    The program has more behaviours than these (its accesses to the shared
    counters are not synchronised); every behaviour shown here is one of
    the program. *)

From Stdlib Require Import ZArith Lia Bool Ascii String PrimFloat Uint63.
From stdpp Require Import base option list strings.

Local Open Scope Z_scope.

(* ===================================================================== *)
(** ** Machine integers *)
(* ===================================================================== *)

Module GoInt.

Definition bits : Z := 64.
Definition maxInt : Z := 2 ^ (bits - 1) - 1.
Definition minInt : Z := - 2 ^ (bits - 1).

(** Two's complement wrap-around of a signed [int]. *)
Definition wrap (x : Z) : Z :=
  (x + 2 ^ (bits - 1)) mod 2 ^ bits - 2 ^ (bits - 1).

Definition mul (x y : Z) : Z := wrap (x * y).
Definition add (x y : Z) : Z := wrap (x + y).

(** [x / y] of Go truncates towards zero; [y = 0] panics. *)
Definition div (x y : Z) : option Z :=
  if y =? 0 then None else Some (wrap (Z.quot x y)).

(** [x % y] has the sign of [x]; [y = 0] panics. *)
Definition rem (x y : Z) : option Z :=
  if y =? 0 then None else Some (Z.rem x y).

Definition uint32 (x : Z) : Z := x mod 2 ^ 32.

Definition inRange (x : Z) : Prop := minInt <= x <= maxInt.

End GoInt.

(** [s[i]] on a slice: the index is an [int], checked against the bounds. *)
Definition idx {A} (s : list A) (i : Z) : option A :=
  if i <? 0 then None else s !! Z.to_nat i.

(** [len(s)] as an [int]. *)
Definition len {A} (s : list A) : Z := Z.of_nat (length s).

(* ===================================================================== *)
(** ** Colours and images *)
(* ===================================================================== *)

(** A value of the interface [color.Color]: the nil interface, or one of
    the two dynamic types that occur here, [color.RGBA] (what the GIF
    decoder puts into a palette) and [color.NRGBA] (what [prepareFrame]
    builds). The channels are [uint8]. *)
Inductive Color :=
| ColorNil
| ColorRGBA (R G B A : Z)
| ColorNRGBA (R G B A : Z).

#[global] Instance Color_eq_dec : EqDecision Color.
Proof. solve_decision. Defined.

(** The method [RGBA()] of the interface: premultiplied 16-bit channels.
    Calling it on the nil interface panics ([None]). *)
Definition Color_RGBA (c : Color) : option (Z * Z * Z * Z) :=
  match c with
  | ColorNil => None
  | ColorRGBA R G B A =>
      let w x := Z.lor x (GoInt.uint32 (Z.shiftl x 8)) in
      Some (w R, w G, w B, w A)
  | ColorNRGBA R G B A =>
      let w x :=
        let r := Z.lor x (GoInt.uint32 (Z.shiftl x 8)) in
        let r := GoInt.uint32 (r * A) in
        Z.quot r 255 in
      Some (w R, w G, w B, Z.lor A (GoInt.uint32 (Z.shiftl A 8)))
  end.

Record Point := { X : Z; Y : Z }.
Record Rectangle := { Min : Point; Max : Point }.

(** [image.Paletted]. *)
Record Paletted := {
  Pix : list Z;
  Stride : Z;
  Rect : Rectangle;
  Palette : list Color
}.

(** [new(image.Paletted)]: the zero value. *)
Definition newPaletted : Paletted :=
  {| Pix := []; Stride := 0;
     Rect := {| Min := {| X := 0; Y := 0 |}; Max := {| X := 0; Y := 0 |} |};
     Palette := [] |}.

(** [colorful.Color]: three [float64] channels. *)
Record colorfulColor := { cR : float; cG : float; cB : float }.

(** [image.Config] and [gif.GIF]. A frame is a [*image.Paletted]: [None]
    is the nil pointer. The colour model of the configuration is a palette
    or nil. *)
Record Config := {
  ColorModel : option (list Color);
  Width : Z;
  Height : Z
}.

Record GIF := {
  Image : list (option Paletted);
  Delay : list Z;
  LoopCount : Z;
  Disposal : list Z;
  GConfig : Config;
  BackgroundIndex : Z
}.

(* ===================================================================== *)
(** ** The colour library *)
(* ===================================================================== *)

(** What [main.go] calls and does not define: [colorful.MakeColor],
    [Color.Clamped] and [Color.RGB255] of go-colorful, and [blendColor],
    [newGradient] and [generate], which live in another file of the
    package. [prepareFrame] is settled for every implementation of them. *)
Class ColorLib := {
  MakeColor : Color -> colorfulColor * bool;
  Clamped : colorfulColor -> colorfulColor;
  RGB255 : colorfulColor -> Z * Z * Z;
  blendColor : colorfulColor -> colorfulColor -> colorfulColor;
  (** interpolation in perceptual space between two control colours, at a
      fraction given as a ratio of two integers *)
  interpolate : colorfulColor -> colorfulColor -> Z -> Z -> colorfulColor
}.

(* ===================================================================== *)
(** ** prepareFrame *)
(* ===================================================================== *)

Section PrepareFrame.
Context `{ColorLib}.

(** One iteration of the loop over [src.Palette]: the value stored at
    [dst.Palette[pixelIndex]], or [None] when [pixel.RGBA()] panics. *)
Definition prepareEntry (overlayColor : colorfulColor) (pixel : Color)
  : option Color :=
  match Color_RGBA pixel with
  | None => None
  | Some (_, _, _, alpha) =>
      let '(convertedPixel, ok) := MakeColor pixel in
      if (alpha =? 0) || negb ok then Some pixel
      else
        let convertedPixel := Clamped convertedPixel in
        let blendedPixel := blendColor overlayColor convertedPixel in
        let '(blendedR, blendedG, blendedB) := RGB255 blendedPixel in
        Some (ColorNRGBA blendedR blendedG blendedB 255)
  end.

(** [for pixelIndex, pixel := range src.Palette { ... }], from
    [pixelIndex] on, writing into the palette of [dst]. *)
Fixpoint paletteLoop (overlayColor : colorfulColor) (pixelIndex : nat)
    (pixels : list Color) (dstPalette : list Color) : option (list Color) :=
  match pixels with
  | [] => Some dstPalette
  | pixel :: pixels' =>
      match prepareEntry overlayColor pixel with
      | None => None
      | Some c =>
          paletteLoop overlayColor (S pixelIndex) pixels'
            (<[pixelIndex := c]> dstPalette)
      end
  end.

(** [prepareFrame(src, dst, overlayColor)]: the new contents of [*dst],
    or [None] when the call panics. *)
Definition prepareFrame (src dst : Paletted) (overlayColor : colorfulColor)
  : option Paletted :=
  let dst := {| Pix := Pix src; Stride := Stride dst;
                Rect := Rect dst; Palette := Palette dst |} in
  let dst := {| Pix := Pix dst; Stride := Stride src;
                Rect := Rect dst; Palette := Palette dst |} in
  let dst := {| Pix := Pix dst; Stride := Stride dst;
                Rect := Rect src; Palette := Palette dst |} in
  let dst := {| Pix := Pix dst; Stride := Stride dst; Rect := Rect dst;
                Palette := replicate (length (Palette src)) ColorNil |} in
  match paletteLoop overlayColor 0 (Palette src) (Palette dst) with
  | None => None
  | Some p =>
      Some {| Pix := Pix dst; Stride := Stride dst; Rect := Rect dst;
              Palette := p |}
  end.

End PrepareFrame.

(* ===================================================================== *)
(** ** parseGradientColors *)
(* ===================================================================== *)

Local Open Scope string_scope.
Local Open Scope Z_scope.

(** A Go [error] is modelled by its text; a call that returns
    [(value, error)] by a sum, the error on the right. *)
Definition error := string.

(** [strings.Split(s, ",")]: the pieces between the commas; a string
    without a comma is its own single piece. *)
Fixpoint Split (s : string) : list string :=
  match s with
  | EmptyString => [EmptyString]
  | String c s' =>
      if Ascii.eqb c "," then EmptyString :: Split s'
      else match Split s' with
           | piece :: pieces => String c piece :: pieces
           | [] => [String c EmptyString]
           end
  end.

Definition hexDigit (c : ascii) : option Z :=
  let n := Z.of_N (N_of_ascii c) in
  if (48 <=? n) && (n <=? 57) then Some (n - 48)
  else if (97 <=? n) && (n <=? 102) then Some (n - 87)
  else if (65 <=? n) && (n <=? 70) then Some (n - 55)
  else None.

Definition isHexDigit (c : ascii) : bool :=
  match hexDigit c with Some _ => true | None => false end.

(** "Exactly 6 hexadecimal digits". *)
Definition sixHexDigits (s : string) : bool :=
  (String.length s =? 6)%nat && forallb isHexDigit (list_ascii_of_string s).

Definition float64 (z : Z) : float := PrimFloat.of_uint63 (Uint63.of_Z z).

Definition hexByte (a b : ascii) : option Z :=
  match hexDigit a, hexDigit b with
  | Some h, Some l => Some (16 * h + l)
  | _, _ => None
  end.

(** Modelled from the spec: [colorful.Hex] is not under src/ (it belongs
    to go-colorful). Section 4.1: "Parsing a textual hex color fails with
    InvalidColorFormat when the string is not exactly 6 hexadecimal
    digits"; section 3: a control colour has red, green and blue, "each a
    normalized real in [0,1]". [parseGradientColors] puts the leading
    [#] in front of the digits before the call. *)
Definition Hex (scol : string) : colorfulColor + error :=
  match scol with
  | String "#" (String r1 (String r2 (String g1 (String g2
      (String b1 (String b2 EmptyString)))))) =>
      match hexByte r1 r2, hexByte g1 g2, hexByte b1 b2 with
      | Some r, Some g, Some b =>
          inl {| cR := float64 r / 255; cG := float64 g / 255;
                 cB := float64 b / 255 |}
      | _, _, _ => inr ("InvalidColorFormat: " +:+ scol)
      end
  | _ => inr ("InvalidColorFormat: " +:+ scol)
  end.

(** The loop [for i, hex := range colorHexes], writing [colors[i]]. *)
Fixpoint parseLoop (i : nat) (colorHexes : list string)
    (colors : list colorfulColor) : list colorfulColor + error :=
  match colorHexes with
  | [] => inl colors
  | hex :: rest =>
      match Hex ("#" +:+ hex) with
      | inr _ => inr ("Invalid color: " +:+ hex)
      | inl color => parseLoop (S i) rest (<[i := color]> colors)
      end
  end.

Definition zeroColor : colorfulColor := {| cR := 0; cG := 0; cB := 0 |}.

(** ROYGBV *)
Definition rainbow : list colorfulColor :=
  [ {| cR := 1; cG := 0; cB := 0 |};
    {| cR := 1; cG := 127 / 255; cB := 0 |};
    {| cR := 1; cG := 1; cB := 0 |};
    {| cR := 0; cG := 1; cB := 0 |};
    {| cR := 0; cG := 0; cB := 1 |};
    {| cR := 139 / 255; cG := 0; cB := 1 |} ]%float.

Definition parseGradientColors (gradientColors : string)
  : list colorfulColor + error :=
  if negb (String.length gradientColors =? 0)%nat then
    let colorHexes := Split gradientColors in
    let colors := replicate (length colorHexes) zeroColor in
    parseLoop 0 colorHexes colors
  else inl rainbow.

(* ===================================================================== *)
(** ** The gradient *)
(* ===================================================================== *)

Record Gradient := { controlColors : list colorfulColor; loop : bool }.

Section Gradient.
Context `{ColorLib}.

(** Modelled from the spec: [newGradient] is in a file of the package
    that is not under src/. Section 4.3: the generator is given "an
    ordered list of control colors" and the flag [loop]. *)
Definition newGradient (colors : list colorfulColor) (wrap : bool)
  : Gradient :=
  {| controlColors := colors; loop := wrap |}.

(** Modelled from the spec: the overlay colour of output index [i], after
    section 4.3. The position is [t = i / frameCount] when looping and
    [t = i / (frameCount - 1)] otherwise ([t = 0] for a single frame);
    the control colours are evenly spaced anchors, [t] lies between two
    adjacent ones (the last wraps to the first when looping) and the
    colour is interpolated between them by the offset within the segment.
    With one control colour every output is that colour. *)
Definition colorAt (g : Gradient) (frameCount i : Z) : colorfulColor :=
  let colors := controlColors g in
  let k := len colors in
  match colors with
  | [] => zeroColor
  | [c] => c
  | c :: _ =>
      let '(num, den, last) :=
        if loop g then (i * k, frameCount, k)
        else if frameCount =? 1 then (0, 1, k - 1)
        else (i * (k - 1), frameCount - 1, k - 1) in
      let seg := num / den in
      let next := if loop g then (seg + 1) mod k else Z.min (seg + 1) last in
      interpolate (default c (idx colors seg)) (default c (idx colors next))
        (num mod den) den
  end.

(** Modelled from the spec: [generate] is in a file of the package that is
    not under src/. Section 4.3: "For each output index i in
    [0, frameCount)" one colour, in order. *)
Definition generate (g : Gradient) (frameCount : Z) : list colorfulColor :=
  map (fun i => colorAt g frameCount (Z.of_nat i))
      (seq 0 (Z.to_nat frameCount)).

End Gradient.

(* ===================================================================== *)
(** ** The worker goroutines of main *)
(* ===================================================================== *)

(** Why a Go program stops with a run-time panic. *)
Inductive Panic :=
| IndexOutOfRange
| NilDereference
| DivideByZero
| MakeSliceLenOutOfRange.

(** Where a goroutine [go func(base int) { ... }(i)] stands. Every
    statement that reads or writes a shared variable is a step of its own. *)
Inductive PC :=
| AtLoop        (* for processed < framesPerThread *)
| AtCheck       (* if frameIndex >= len(newFrames) { break } *)
| AtNormalize   (* if normalizedFrameIndex >= len(img.Image) { ... = 0 } *)
| AtWork        (* prepareFrame(img.Image[...], newFrames[...], ...) *)
| AtIncFrame    (* frameIndex++ *)
| AtIncNorm     (* normalizedFrameIndex++ *)
| AtSend        (* ch <- 1 *)
| Finished.

#[global] Instance PC_eq_dec : EqDecision PC.
Proof. solve_decision. Defined.

(** The locals of one goroutine. *)
Record Worker := { base : Z; pc : PC; processed : Z }.

(** One call of [prepareFrame], as an observer would log it: who called,
    which slot of [newFrames] was written, which source frame was read. *)
Record Write := { writer : nat; slot : Z; source : Z }.

#[global] Instance Write_eq_dec : EqDecision Write.
Proof. solve_decision. Defined.

(** What the goroutines only read. *)
Record Shared := {
  img_Image : list (option Paletted);
  overlayColors : list colorfulColor;
  framesPerThread : Z
}.

(** The variables the goroutines share and change, their locals, the
    counter of main's barrier loop, and the log of the calls made. *)
Record State := {
  frameIndex : Z;
  normalizedFrameIndex : Z;
  newFrames : list (option Paletted);
  workers : list Worker;
  barrier : Z;
  log : list Write
}.

Inductive Result :=
| Running (s : State)
| Panics (p : Panic) (s : State)
| NotRunnable.

(** Goroutine [t], whose locals are [w], moves on to [p]. *)
Definition at_pc (w : Worker) (p : PC) : Worker :=
  {| base := base w; pc := p; processed := processed w |}.

Definition setPC (t : nat) (w : Worker) (p : PC) (s : State) : State :=
  {| frameIndex := frameIndex s;
     normalizedFrameIndex := normalizedFrameIndex s;
     newFrames := newFrames s;
     workers := <[t := at_pc w p]> (workers s);
     barrier := barrier s;
     log := log s |}.

(** Assignments to the shared variables. *)
Definition set_frameIndex (v : Z) (s : State) : State :=
  {| frameIndex := v;
     normalizedFrameIndex := normalizedFrameIndex s;
     newFrames := newFrames s;
     workers := workers s;
     barrier := barrier s;
     log := log s |}.

Definition set_normalizedFrameIndex (v : Z) (s : State) : State :=
  {| frameIndex := frameIndex s;
     normalizedFrameIndex := v;
     newFrames := newFrames s;
     workers := workers s;
     barrier := barrier s;
     log := log s |}.

Definition set_barrier (v : Z) (s : State) : State :=
  {| frameIndex := frameIndex s;
     normalizedFrameIndex := normalizedFrameIndex s;
     newFrames := newFrames s;
     workers := workers s;
     barrier := v;
     log := log s |}.

Section Workers.
Context `{ColorLib}.
Variable sh : Shared.

(** [if normalizedFrameIndex >= len(img.Image) {
      normalizedFrameIndex = 0 }] *)
Definition normalize (s : State) : State :=
  if normalizedFrameIndex s >=? len (img_Image sh)
  then set_normalizedFrameIndex 0 s
  else s.

(** The call at [AtWork]: the three index expressions are evaluated left
    to right, then [prepareFrame] runs on the two pointers. *)
Definition work (t : nat) (s : State) : State + Panic :=
  match idx (img_Image sh) (normalizedFrameIndex s) with
  | None => inr IndexOutOfRange
  | Some src =>
  match idx (newFrames s) (frameIndex s) with
  | None => inr IndexOutOfRange
  | Some dst =>
  match idx (overlayColors sh) (frameIndex s) with
  | None => inr IndexOutOfRange
  | Some overlayColor =>
  match src, dst with
  | Some src, Some dst =>
      match prepareFrame src dst overlayColor with
      | None => inr NilDereference
      | Some dst' =>
          inl {| frameIndex := frameIndex s;
                 normalizedFrameIndex := normalizedFrameIndex s;
                 newFrames :=
                   <[Z.to_nat (frameIndex s) := Some dst']> (newFrames s);
                 workers := workers s;
                 barrier := barrier s;
                 log := log s ++
                        [{| writer := t; slot := frameIndex s;
                            source := normalizedFrameIndex s |}] |}
      end
  | _, _ => inr NilDereference
  end end end end.

(** One step of goroutine [t]. *)
Definition step (t : nat) (s : State) : Result :=
  match workers s !! t with
  | None => NotRunnable
  | Some w =>
      match pc w with
      | AtLoop =>
          if processed w <? framesPerThread sh
          then Running (setPC t w AtCheck s)
          else Running (setPC t w AtSend s)
      | AtCheck =>
          if frameIndex s >=? len (newFrames s)
          then Running (setPC t w AtSend s)
          else Running (setPC t w AtNormalize s)
      | AtNormalize =>
          Running (setPC t w AtWork (normalize s))
      | AtWork =>
          match work t s with
          | inr p => Panics p s
          | inl s' => Running (setPC t w AtIncFrame s')
          end
      | AtIncFrame =>
          Running (setPC t w AtIncNorm
            (set_frameIndex (GoInt.add (frameIndex s) 1) s))
      | AtIncNorm =>
          Running (setPC t w AtLoop
            (set_normalizedFrameIndex
               (GoInt.add (normalizedFrameIndex s) 1) s))
      | AtSend =>
          (* main is in [for barrier != threads { barrier += <-ch }] and
             takes the value at once *)
          Running (setPC t w Finished
            (set_barrier (GoInt.add (barrier s) 1) s))
      | Finished => NotRunnable
      end
  end.

(** The goroutines run as a schedule says: the list names, step after
    step, the goroutine that moves. *)
Fixpoint run (schedule : list nat) (s : State) : Result :=
  match schedule with
  | [] => Running s
  | t :: schedule' =>
      match step t s with
      | Running s' => run schedule' s'
      | r => r
      end
  end.

(** The states some schedule leads to. *)
Definition reachable (s0 s : State) : Prop :=
  exists schedule, run schedule s0 = Running s.

End Workers.

(** What the slot [i] of the output is meant to hold: the source frame
    [i mod len(img.Image)] under the overlay colour [overlayColors[i]]. *)
Definition expectedFrame `{ColorLib} (sh : Shared) (i : Z) : option Paletted :=
  match idx (img_Image sh) (i mod len (img_Image sh)),
        idx (overlayColors sh) i with
  | Some (Some src), Some overlayColor =>
      prepareFrame src newPaletted overlayColor
  | _, _ => None
  end.

(** A frame of a decoded animation: a pointer that is not nil, to a frame
    whose palette holds colours. *)
Definition wellFormedFrame (f : option Paletted) : Prop :=
  exists src, f = Some src /\ ColorNil ∉ Palette src.

(** The value of [normalizedFrameIndex] once [k] iterations have been
    run one after the other over [n] source frames: it is reset only at
    the start of the next iteration. *)
Definition nfiAfter (n k : Z) : Z :=
  if k =? 0 then 0 else (k - 1) mod n + 1.

(** The log of goroutine [t] preparing the first [k] slots in order, over
    [n] source frames. *)
Definition writesBy (t : nat) (n : Z) (k : nat) : list Write :=
  (fun j => {| writer := t; slot := Z.of_nat j;
               source := Z.of_nat j mod n |}) <$> seq 0 k.

(** [go func(base int) { processed := 0; ... }(i)] for [i] below
    [threads]. *)
Definition spawn (threads : Z) : list Worker :=
  map (fun i => {| base := Z.of_nat i; pc := AtLoop; processed := 0 |})
      (seq 0 (Z.to_nat threads)).

(** The state in which the goroutines start. *)
Definition initial (frames : list (option Paletted)) (threads : Z) : State :=
  {| frameIndex := 0;
     normalizedFrameIndex := 0;
     newFrames := frames;
     workers := spawn threads;
     barrier := 0;
     log := [] |}.

(** main leaves its barrier loop when [barrier == threads]. *)
Definition joined (threads : Z) (s : State) : bool := barrier s =? threads.

(* ===================================================================== *)
(** ** main *)
(* ===================================================================== *)

(** [make([]T, n)]: [n] zero values; a negative [n] panics. Memory is
    not bounded here: a length that fits an [int] is granted. *)
Definition make {A} (zero : A) (n : Z) : option (list A) :=
  if n <? 0 then None else Some (replicate (Z.to_nat n) zero).

(** [for i := range newFrames { newFrames[i] = new(image.Paletted) }],
    with [todo] iterations left from index [i]. *)
Fixpoint allocLoop (i todo : nat) (newFrames : list (option Paletted))
  : list (option Paletted) :=
  match todo with
  | O => newFrames
  | S todo' => allocLoop (S i) todo' (<[i := Some newPaletted]> newFrames)
  end.

(** [frameCount := len(img.Image) * loopCount]. *)
Definition frameCountOf (img : GIF) (loopCount : Z) : Z :=
  GoInt.mul (len (Image img)) loopCount.

(** [newFrames], as the goroutines find it. *)
Definition allocFrames (frameCount : Z) : option (list (option Paletted)) :=
  match make None frameCount with
  | None => None
  | Some newFrames => Some (allocLoop 0 (length newFrames) newFrames)
  end.

(** [framesPerThread := len(img.Image)/threads + 1]. *)
Definition framesPerThreadOf (img : GIF) (threads : Z) : option Z :=
  match GoInt.div (len (Image img)) threads with
  | None => None
  | Some q => Some (GoInt.add q 1)
  end.

(** [for i := range new { new[i] = old[i%len(old)] }], with [todo]
    iterations left from index [i]; used for the delays and for the
    disposal codes. *)
Fixpoint cycleLoop (old : list Z) (i todo : nat) (new : list Z)
  : list Z + Panic :=
  match todo with
  | O => inl new
  | S todo' =>
      match GoInt.rem (Z.of_nat i) (len old) with
      | None => inr DivideByZero
      | Some k =>
          match idx old k with
          | None => inr IndexOutOfRange
          | Some v => cycleLoop old (S i) todo' (<[i := v]> new)
          end
      end
  end.

Definition cycled (old : list Z) (n : nat) : list Z + Panic :=
  cycleLoop old 0 n (replicate n 0).

(** The command line after [flag.Parse()]. *)
Record Flags := {
  threads : Z;
  gradientColors : string;
  loopCount : Z;
  positionalArgs : list string
}.

(** The outside of the program: the file system and the GIF codec. An
    open file is known by its name. *)
Definition File := string.

Record World := {
  os_Open : string -> File + error;
  gif_DecodeAll : File -> GIF + error;
  os_OpenFile : string -> File + error;
  gif_EncodeAll : File -> GIF -> option error
}.

Inductive Status :=
| Returned                    (* main returned: exit code 0 *)
| Exited (code : Z)           (* os.Exit(code) *)
| Crashed (p : Panic)         (* a run-time panic *)
| Stalled.                    (* the schedule is not a whole execution *)

(** What a run of the program shows: the lines printed, how it ended, the
    calls of [prepareFrame] that were made, and the file and animation
    handed to [gif.EncodeAll], if the run got there. *)
Record Run := {
  stdout : list string;
  status : Status;
  prepared : list Write;
  encoded : option (File * GIF)
}.

Definition exit1 (line : string) (done : list Write)
    (enc : option (File * GIF)) : Run :=
  {| stdout := [line]; status := Exited 1; prepared := done;
     encoded := enc |}.

Definition crash (p : Panic) (done : list Write) : Run :=
  {| stdout := []; status := Crashed p; prepared := done; encoded := None |}.

Section Main.
Context `{ColorLib}.

(** From [newDelay := ...] to the end of [main], once every goroutine
    has been joined. *)
Definition finish (w : World) (output : string) (img : GIF) (s : State)
  : Run :=
  let newFrames := newFrames s in
  match cycled (Delay img) (length newFrames) with
  | inr p => crash p (log s)
  | inl newDelay =>
  match cycled (Disposal img) (length newFrames) with
  | inr p => crash p (log s)
  | inl newDisposal =>
  let img := {| Image := newFrames; Delay := newDelay;
                LoopCount := LoopCount img; Disposal := newDisposal;
                GConfig := GConfig img;
                BackgroundIndex := BackgroundIndex img |} in
  match os_OpenFile w output with
  | inr err => exit1 ("Error opening file:  " +:+ err) (log s) None
  | inl file =>
  let img := {| Image := Image img; Delay := Delay img;
                LoopCount := LoopCount img; Disposal := Disposal img;
                GConfig := {| ColorModel := None;
                              Width := Width (GConfig img);
                              Height := Height (GConfig img) |};
                BackgroundIndex := BackgroundIndex img |} in
  let img := {| Image := Image img; Delay := Delay img;
                LoopCount := LoopCount img; Disposal := Disposal img;
                GConfig := GConfig img;
                BackgroundIndex := 0 |} in
  match gif_EncodeAll w file img with
  | Some err =>
      exit1 ("Error encoding image:  " +:+ err) (log s) (Some (file, img))
  | None =>
      {| stdout := []; status := Returned; prepared := log s;
         encoded := Some (file, img) |}
  end end end end.

(** From [frameCount := ...] on: the frames are allocated, the overlay
    colours generated, the goroutines run and are joined. *)
Definition process (fl : Flags) (w : World) (schedule : list nat)
    (colors : list colorfulColor) (output : string) (img : GIF) : Run :=
  let frameCount := frameCountOf img (loopCount fl) in
  match allocFrames frameCount with
  | None => crash MakeSliceLenOutOfRange []
  | Some newFrames =>
  let gradient := newGradient colors true in
  let overlayColors := generate gradient frameCount in
  match framesPerThreadOf img (threads fl) with
  | None => crash DivideByZero []
  | Some framesPerThread =>
  let sh := {| img_Image := Image img; overlayColors := overlayColors;
               framesPerThread := framesPerThread |} in
  match run sh schedule (initial newFrames (threads fl)) with
  | Panics p s => crash p (log s)
  | NotRunnable =>
      {| stdout := []; status := Stalled; prepared := [];
         encoded := None |}
  | Running s =>
      if joined (threads fl) s then finish w output img s
      else {| stdout := []; status := Stalled; prepared := log s;
              encoded := None |}
  end end end.

(** [main], for a command line, an outside world and a schedule of the
    goroutines. *)
Definition main (fl : Flags) (w : World) (schedule : list nat) : Run :=
  if threads fl <=? 0 then
    exit1 "Thread count must be at least 1" [] None
  else
  match parseGradientColors (gradientColors fl) with
  | inr err => exit1 err [] None
  | inl colors =>
  if loopCount fl <? 1 then
    exit1 "Loop count must be at least 1" [] None
  else
  match positionalArgs fl with
  | [input; output] =>
      match os_Open w input with
      | inr err => exit1 ("Error opening file:  " +:+ err) [] None
      | inl file =>
      match gif_DecodeAll w file with
      | inr err => exit1 ("Error decoding:  " +:+ err) [] None
      | inl img => process fl w schedule colors output img
      end end
  | _ =>
      exit1 "Expected two positional arguments: input and output" [] None
  end end.

End Main.

(** What [gif.DecodeAll] returns on success: at least one frame, every
    frame a pointer that is not nil to an image whose palette holds
    colours, and one delay and one disposal code per frame. A slice is
    shorter than the largest [int]. *)
Definition decoded (img : GIF) : Prop :=
  1 <= len (Image img) < GoInt.maxInt /\
  Forall wellFormedFrame (Image img) /\
  len (Delay img) = len (Image img) /\
  len (Disposal img) = len (Image img).

(* ===================================================================== *)
(** ** Schedules and invariants *)
(* ===================================================================== *)

(** Goroutine [t] alone, for [n] steps. *)
Definition alone (t : nat) (n : nat) : list nat := replicate n t.

(** Goroutine 0 goes through [frameCount] iterations of six steps and
    signs off in three; then the others find nothing left and sign off,
    three steps each. *)
Definition oneAfterTheOther (threads frameCount : nat) : list nat :=
  alone 0 (6 * frameCount + 3)
  ++ flat_map (fun t => alone t 3) (seq 1 (threads - 1)).

(** What no step changes: the number of goroutines, the number of slots,
    that no slot is nil, that every [processed] is 0. *)
Definition preserved (s s' : State) : Prop :=
  length (workers s') = length (workers s) /\
  length (newFrames s') = length (newFrames s) /\
  (Forall is_Some (newFrames s) -> Forall is_Some (newFrames s')) /\
  (Forall (fun w => processed w = 0) (workers s) ->
   Forall (fun w => processed w = 0) (workers s')).

(** The state between two iterations of goroutine 0 when it runs alone
    from the start, [k] slots done. *)
Definition between `{ColorLib} (sh : Shared) (frames : list (option Paletted))
    (threads : Z) (k : nat) (s : State) : Prop :=
  frameIndex s = Z.of_nat k /\
  normalizedFrameIndex s = nfiAfter (len (img_Image sh)) (Z.of_nat k) /\
  workers s = spawn threads /\
  barrier s = 0 /\
  length (newFrames s) = length frames /\
  (forall j : nat, (j < k)%nat ->
     newFrames s !! j = Some (expectedFrame sh (Z.of_nat j))) /\
  (forall j : nat, (k <= j)%nat -> newFrames s !! j = frames !! j) /\
  log s = writesBy 0 (len (img_Image sh)) k.

(** What the goroutines of [main] only read. *)
Definition sharedOf `{ColorLib} (fl : Flags) (colors : list colorfulColor)
    (img : GIF) (fpt : Z) : Shared :=
  {| img_Image := Image img;
     overlayColors :=
       generate (newGradient colors true) (frameCountOf img (loopCount fl));
     framesPerThread := fpt |}.

(** The goroutine that has just moved is found where [setPC] put it. *)
Ltac lookup_worker :=
  unfold normalize; simpl; try destruct (_ >=? _); simpl;
  apply list_lookup_insert_eq; rewrite ?length_insert; lia.

(* ===================================================================== *)
(** ** A colour library and inputs to run the model on *)
(* ===================================================================== *)

(** The statements below hold for every [ColorLib]. To evaluate the model
    on concrete inputs one instance is needed: this one follows the
    documentation of go-colorful for the three library calls, blends and
    interpolates channel by channel, and is used for nothing else. *)
Module Sample.

Definition clamp01 (v : float) : float :=
  if (v <? 0)%float then 0%float
  else if (1 <? v)%float then 1%float else v.

(** The integer part of a float that is not negative. *)
Definition truncate (f : float) : Z :=
  let '(m, e) := frshiftexp f in
  let mant := Uint63.to_Z (normfr_mantissa m) in
  let ex := Uint63.to_Z e - 2101 - 53 in
  if ex >=? 0 then mant * 2 ^ ex else mant / 2 ^ (- ex).

Definition unpremultiply (v a : Z) : float :=
  (float64 (Z.quot (GoInt.uint32 (v * 65535)) a) / 65535)%float.

Definition mix (x y : float) (num den : Z) : float :=
  (x + (y - x) * (float64 num / float64 den))%float.

Definition lib : ColorLib :=
  {| MakeColor c :=
       match Color_RGBA c with
       | Some (r, g, b, a) =>
           if a =? 0 then (zeroColor, false)
           else ({| cR := unpremultiply r a; cG := unpremultiply g a;
                    cB := unpremultiply b a |}, true)
       | None => (zeroColor, false)
       end;
     Clamped c :=
       {| cR := clamp01 (cR c); cG := clamp01 (cG c);
          cB := clamp01 (cB c) |};
     RGB255 c :=
       (truncate (cR c * 255 + 0.5)%float,
        truncate (cG c * 255 + 0.5)%float,
        truncate (cB c * 255 + 0.5)%float);
     blendColor overlay c :=
       {| cR := mix (cR overlay) (cR c) 1 2;
          cG := mix (cG overlay) (cG c) 1 2;
          cB := mix (cB overlay) (cB c) 1 2 |};
     interpolate c0 c1 num den :=
       {| cR := mix (cR c0) (cR c1) num den;
          cG := mix (cG c0) (cG c1) num den;
          cB := mix (cB c0) (cB c1) num den |} |}.

Definition square : Rectangle :=
  {| Min := {| X := 0; Y := 0 |}; Max := {| X := 2; Y := 2 |} |}.

(** 2x2 frames over a palette of one opaque and one transparent entry. *)
Definition frame (pix : list Z) (r g b : Z) : Paletted :=
  {| Pix := pix; Stride := 2; Rect := square;
     Palette := [ColorRGBA r g b 255; ColorRGBA 0 0 0 0] |}.

Definition frame0 : Paletted := frame [0; 1; 1; 0] 200 0 0.
Definition frame1 : Paletted := frame [1; 0; 0; 1] 0 0 200.
Definition frame2 : Paletted := frame [0; 0; 1; 1] 0 200 0.

Definition animation (frames : list Paletted) : GIF :=
  {| Image := Some <$> frames;
     Delay := (fun i => 10 * (1 + Z.of_nat i)) <$> seq 0 (length frames);
     LoopCount := 0;
     Disposal := (fun _ => 1) <$> frames;
     GConfig := {| ColorModel := Some [ColorRGBA 0 0 0 255];
                   Width := 2; Height := 2 |};
     BackgroundIndex := 1 |}.

(** A world in which every file opens, the input decodes to [img] and
    the encoder accepts what it is given. *)
Definition world (img : GIF) : World :=
  {| os_Open name := inl name;
     gif_DecodeAll _ := inl img;
     os_OpenFile name := inl name;
     gif_EncodeAll _ _ := None |}.

Definition flags (threads : Z) (gradient : string) (loopCount : Z)
  : Flags :=
  {| threads := threads; gradientColors := gradient;
     loopCount := loopCount; positionalArgs := ["in.gif"; "out.gif"] |}.

(** Two goroutines, two frames. Goroutine 0 prepares slot 0 and
    increments [frameIndex]; before it increments
    [normalizedFrameIndex], goroutine 1 goes through a whole
    iteration. *)
Definition staleSource : list nat :=
  alone 0 5 ++ alone 1 4 ++ alone 0 1 ++ alone 1 2 ++ alone 0 3
  ++ alone 1 3.

(** Two goroutines, two frames. Both pass the check of [frameIndex]
    before either increments it. *)
Definition bothAtZero : list nat :=
  alone 0 3 ++ alone 1 3 ++ alone 0 1 ++ alone 1 1 ++ alone 0 2
  ++ alone 1 2 ++ alone 0 3 ++ alone 1 3.

(** Two goroutines, one frame. Both pass the check, the first one
    finishes its iteration, the second one then indexes past the end. *)
Definition pastTheEnd : list nat := alone 0 2 ++ alone 1 2 ++ alone 0 4
  ++ alone 1 2.

(** [3 * wrapping = 2 ^ 64 + 2], which a 64-bit [int] holds as 2. *)
Definition wrapping : Z := 6148914691236517206.

End Sample.

(* ===================================================================== *)
(** ** Further definitions for the properties of the code *)
(* ===================================================================== *)

(** The number of commas of a string. *)
Fixpoint commas (s : string) : nat :=
  match s with
  | EmptyString => 0
  | String c s' => (if Ascii.eqb c "," then 1 else 0) + commas s'
  end.

(** The colour of one piece of the gradient, as [parseGradientColors]
    asks for it: [colorful.Hex("#" + hex)], the error dropped. *)
Definition hexOf (hex : string) : option colorfulColor :=
  match Hex ("#" +:+ hex) with
  | inl color => Some color
  | inr _ => None
  end.

(** The alpha channel that [RGBA()] returns is zero. *)
Definition transparent (c : Color) : Prop :=
  exists r g b, Color_RGBA c = Some (r, g, b, 0).

(** How many goroutines stand at a program point that [f] selects. *)
Fixpoint countPC (f : PC -> bool) (ws : list Worker) : nat :=
  match ws with
  | [] => 0
  | w :: ws' => (if f (pc w) then 1 else 0) + countPC f ws'
  end.

(** Past the check of [frameIndex] and before [frameIndex++]. *)
Definition inFlight (p : PC) : bool :=
  match p with
  | AtNormalize | AtWork | AtIncFrame => true
  | _ => false
  end.

(** [prepareFrame] has been called, [frameIndex++] not yet run. *)
Definition called (p : PC) : bool :=
  match p with AtIncFrame => true | _ => false end.

(** Out of the loop. *)
Definition left (p : PC) : bool :=
  match p with AtSend | Finished => true | _ => false end.

Definition finished (p : PC) : bool :=
  match p with Finished => true | _ => false end.

(** What holds in every state the goroutines reach, for [T] goroutines
    and [F] slots: the barrier counts the goroutines that have sent;
    the calls of [prepareFrame] are [frameIndex] plus those whose
    increment is pending; a goroutine is out of the loop only once
    [frameIndex] has reached [F]. *)
Definition counted (T F : Z) (s : State) : Prop :=
  Z.of_nat (length (workers s)) = T /\
  Z.of_nat (length (newFrames s)) = F /\
  Forall (fun w => processed w = 0) (workers s) /\
  barrier s = Z.of_nat (countPC finished (workers s)) /\
  0 <= frameIndex s /\
  Z.of_nat (length (log s))
  = frameIndex s + Z.of_nat (countPC called (workers s)) /\
  frameIndex s + Z.of_nat (countPC inFlight (workers s)) <= F + T - 1 /\
  (0 < Z.of_nat (countPC left (workers s)) -> F <= frameIndex s).

(** What holds in every state a single goroutine reaches over [n] source
    frames and [F] slots: where it stands fixes how the two counters are
    related. *)
Definition solo (n F : Z) (s : State) : Prop :=
  Z.of_nat (length (newFrames s)) = F /\
  Forall is_Some (newFrames s) /\
  exists w,
    workers s = [w] /\
    match pc w with
    | AtLoop | AtCheck =>
        0 <= frameIndex s <= F /\
        normalizedFrameIndex s = nfiAfter n (frameIndex s)
    | AtNormalize =>
        0 <= frameIndex s < F /\
        normalizedFrameIndex s = nfiAfter n (frameIndex s)
    | AtWork | AtIncFrame =>
        0 <= frameIndex s < F /\
        normalizedFrameIndex s = frameIndex s mod n
    | AtIncNorm =>
        1 <= frameIndex s <= F /\
        normalizedFrameIndex s = (frameIndex s - 1) mod n
    | AtSend | Finished => True
    end.

(** Nothing to do: no slot, no call so far, and no goroutine past the
    check of [frameIndex]. *)
Definition idle (s : State) : Prop :=
  newFrames s = [] /\ log s = [] /\ frameIndex s = 0 /\
  Forall (fun w => inFlight (pc w) = false /\ pc w <> AtIncNorm) (workers s).

(** [prepareFrame] on its pointers. Above, [prepareFrame] is given the
    two images that [src] and [dst] point to, which is what the call in
    [main] needs: there the two pointers are distinct and not nil. Here
    the arguments are the pointers themselves: [None] is the nil pointer,
    an address is a number, and the heap holds an image at every
    address. *)
Definition Heap := nat -> Paletted.

(** [*p = v]. *)
Definition store (h : Heap) (p : nat) (v : Paletted) : Heap :=
  fun q => if decide (q = p) then v else h q.

(** The statements of [prepareFrame], one after the other, each reading
    [*src] and [*dst] as the statement before left them. The first one
    dereferences both pointers. [range src.Palette] takes the slice once,
    before the first iteration, that is after [dst.Palette] has been
    made: when both pointers are the same image it is the slice of nil
    values just made. An iteration reads its element before it writes
    the element of the same index. *)
Definition prepareFrameAt `{ColorLib} (h : Heap) (src dst : option nat)
    (overlayColor : colorfulColor) : option Heap :=
  match src, dst with
  | Some s, Some d =>
      (* dst.Pix = src.Pix *)
      let h := store h d {| Pix := Pix (h s); Stride := Stride (h d);
                            Rect := Rect (h d);
                            Palette := Palette (h d) |} in
      (* dst.Stride = src.Stride *)
      let h := store h d {| Pix := Pix (h d); Stride := Stride (h s);
                            Rect := Rect (h d);
                            Palette := Palette (h d) |} in
      (* dst.Rect = src.Rect *)
      let h := store h d {| Pix := Pix (h d); Stride := Stride (h d);
                            Rect := Rect (h s);
                            Palette := Palette (h d) |} in
      (* dst.Palette = make([]color.Color, len(src.Palette)) *)
      let h := store h d {| Pix := Pix (h d); Stride := Stride (h d);
                            Rect := Rect (h d);
                            Palette :=
                              replicate (length (Palette (h s)))
                                        ColorNil |} in
      (* for pixelIndex, pixel := range src.Palette { ... } *)
      match paletteLoop overlayColor 0 (Palette (h s)) (Palette (h d)) with
      | None => None
      | Some p =>
          Some (store h d {| Pix := Pix (h d); Stride := Stride (h d);
                             Rect := Rect (h d); Palette := p |})
      end
  | _, _ => None
  end.

(** [fmt.Println] writes its operands, then a line feed. The standard
    output of a run is what its calls of [Println] wrote, one after the
    other, and the lines of a text are counted by its line feeds. *)
Definition lineFeed : ascii := "010"%char.

Definition Println (text : string) : string :=
  text +:+ String lineFeed EmptyString.

Definition output (r : Run) : string :=
  foldr (fun text rest => Println text +:+ rest) EmptyString (stdout r).

Fixpoint lineCount (s : string) : nat :=
  match s with
  | EmptyString => 0
  | String c s' => (if Ascii.eqb c lineFeed then 1 else 0) + lineCount s'
  end.

(* ===================================================================== *)
(** * Properties *)
(* ===================================================================== *)

Local Open Scope list_scope.

(** ** Slices and machine integers *)

Lemma wrap_inRange x : GoInt.inRange x -> GoInt.wrap x = x.
Proof.
  unfold GoInt.inRange, GoInt.wrap, GoInt.minInt, GoInt.maxInt, GoInt.bits.
  intros Hx. rewrite Z.mod_small; lia.
Qed.

Lemma idx_lookup {A} (s : list A) (i : nat) : idx s (Z.of_nat i) = s !! i.
Proof.
  unfold idx. destruct (Z.ltb_spec (Z.of_nat i) 0); [lia|].
  by rewrite Nat2Z.id.
Qed.

Lemma idx_Some_lt {A} (s : list A) i x : idx s i = Some x -> 0 <= i < len s.
Proof.
  unfold idx, len. destruct (Z.ltb_spec i 0); [done|].
  intros Hl%lookup_lt_Some. lia.
Qed.

Lemma idx_is_Some {A} (s : list A) i : 0 <= i < len s -> is_Some (idx s i).
Proof.
  unfold idx, len. intros Hi. destruct (Z.ltb_spec i 0); [lia|].
  apply lookup_lt_is_Some. lia.
Qed.

(** ** prepareFrame *)

Section PrepareFrameFacts.
Context `{ColorLib}.

Lemma prepareEntry_nonnil overlayColor pixel :
  pixel <> ColorNil -> is_Some (prepareEntry overlayColor pixel).
Proof.
  intros Hp. unfold prepareEntry.
  destruct pixel as [|R G B A|R G B A]; [done| |]; simpl;
    destruct (MakeColor _) as [cp ok];
    destruct (_ || _); [eauto| |eauto|];
    destruct (RGB255 _) as [[? ?] ?]; eauto.
Qed.

Lemma prepareEntry_out_nonnil overlayColor pixel out :
  prepareEntry overlayColor pixel = Some out -> out <> ColorNil.
Proof.
  unfold prepareEntry.
  destruct (Color_RGBA pixel) as [[[[r g] b] alpha]|] eqn:Hrgba; [|done].
  destruct (MakeColor pixel) as [cp ok].
  destruct (_ || _).
  - intros [= <-] ->. done.
  - destruct (RGB255 _) as [[? ?] ?]. by intros [= <-].
Qed.

(** The loop writes, from [pixelIndex] on, what [prepareEntry] gives for
    each entry, and leaves the rest of the destination as it was. *)
Lemma paletteLoop_mapM overlayColor pixels :
  forall pixelIndex dstPalette outs,
    mapM (prepareEntry overlayColor) pixels = Some outs ->
    (pixelIndex + length pixels <= length dstPalette)%nat ->
    paletteLoop overlayColor pixelIndex pixels dstPalette
    = Some (take pixelIndex dstPalette ++ outs
            ++ drop (pixelIndex + length pixels) dstPalette).
Proof.
  induction pixels as [|pixel pixels IH]; intros i dstP outs Hm Hlen.
  - simpl in Hm. injection Hm as <-. simpl.
    by rewrite Nat.add_0_r, take_drop.
  - rewrite mapM_Some in Hm. inversion Hm as [|? out ? outs' He Hrest];
      subst. simpl in *. rewrite He.
    rewrite (IH (S i) (<[i:=out]> dstP) outs').
    + f_equal.
      rewrite (take_S_r _ _ out) by (apply list_lookup_insert_eq; lia).
      rewrite take_insert_ge by lia.
      rewrite drop_insert_lt by lia.
      replace (S i + length pixels)%nat with (i + S (length pixels))%nat
        by lia.
      by rewrite <- app_assoc.
    + by apply mapM_Some.
    + rewrite length_insert. lia.
Qed.

Lemma paletteLoop_None overlayColor pixels :
  forall pixelIndex dstPalette,
    mapM (prepareEntry overlayColor) pixels = None ->
    paletteLoop overlayColor pixelIndex pixels dstPalette = None.
Proof.
  induction pixels as [|pixel pixels IH]; intros i dstP Hm; [done|].
  simpl. destruct (prepareEntry overlayColor pixel) as [out|] eqn:He;
    [|done].
  apply IH. apply mapM_None. apply mapM_None in Hm.
  inversion Hm; subst; [congruence|done].
Qed.

(** [prepareFrame] as a whole: the geometry of [src] and the palette
    entries mapped one by one. *)
Lemma prepareFrame_Some src dst overlayColor dst' :
  prepareFrame src dst overlayColor = Some dst' <->
  exists outs,
    mapM (prepareEntry overlayColor) (Palette src) = Some outs /\
    dst' = {| Pix := Pix src; Stride := Stride src; Rect := Rect src;
              Palette := outs |}.
Proof.
  unfold prepareFrame. simpl.
  destruct (mapM (prepareEntry overlayColor) (Palette src)) as [outs|]
    eqn:Hm.
  - rewrite (paletteLoop_mapM _ _ 0%nat _ outs Hm)
      by (rewrite length_replicate; lia).
    simpl. rewrite drop_ge by (rewrite length_replicate; lia).
    rewrite app_nil_r. split.
    + intros [= <-]. eauto.
    + intros (outs' & [= <-] & ->). done.
  - rewrite paletteLoop_None by done. split; [done|].
    by intros (? & ? & _).
Qed.

Lemma prepareFrame_total src dst overlayColor :
  ColorNil ∉ Palette src ->
  is_Some (prepareFrame src dst overlayColor).
Proof.
  intros Hnil.
  destruct (mapM (prepareEntry overlayColor) (Palette src)) as [outs|]
    eqn:Hm.
  - eexists. apply prepareFrame_Some. eauto.
  - exfalso. apply mapM_None, Exists_exists in Hm.
    destruct Hm as (pixel & Hin & Hnone).
    destruct (prepareEntry_nonnil overlayColor pixel) as [? ?];
      [|congruence].
    intros ->. done.
Qed.

End PrepareFrameFacts.

(** C4. The frame [prepareFrame] leaves in [dst] has the pixel index
    buffer, the stride and the bounding rectangle of the source frame, and
    a palette as long as the source palette: the indices are never touched,
    only the colours at each index. The call returns for every source
    frame whose palette holds colours (no nil interface value). *)
Theorem prepareFrame_geometry `{ColorLib} (src dst : Paletted)
    (overlayColor : colorfulColor) :
  ColorNil ∉ Palette src ->
  exists dst',
    prepareFrame src dst overlayColor = Some dst' /\
    Pix dst' = Pix src /\
    Stride dst' = Stride src /\
    Rect dst' = Rect src /\
    length (Palette dst') = length (Palette src).
Proof.
  intros Hnil.
  destruct (prepareFrame_total src dst overlayColor Hnil) as [dst' Hd].
  exists dst'. split; [done|].
  apply prepareFrame_Some in Hd as (outs & Hm & ->). simpl.
  repeat split. apply mapM_Some, Forall2_length in Hm. done.
Qed.

Lemma prepareFrame_geometry_witness :
  (ColorNil ∉ Palette Sample.frame0) /\
  exists dst',
    @prepareFrame Sample.lib Sample.frame0 newPaletted zeroColor = Some dst' /\
    Pix dst' = [0; 1; 1; 0] /\
    Stride dst' = 2 /\
    Rect dst' = Sample.square /\
    length (Palette dst') = 2%nat.
Proof.
  assert (Hnil : ColorNil ∉ Palette Sample.frame0).
  { intros Hin. repeat (apply elem_of_cons in Hin as [Hin|Hin]; [done|]).
    by apply elem_of_nil in Hin. }
  split; [exact Hnil|].
  exact (@prepareFrame_geometry Sample.lib Sample.frame0 newPaletted
           zeroColor Hnil).
Defined.

(** C3. For every palette entry of a source frame: when its alpha channel
    is zero, or when [colorful.MakeColor] reports that the conversion
    failed, the output palette holds the original colour at that index,
    unchanged; otherwise it holds a [color.NRGBA] whose alpha is 255 (the
    maximum, [0xffff] on the 16-bit scale of [RGBA()]), whatever the alpha
    of the source entry was. *)
Theorem prepareFrame_transparency `{ColorLib} (src dst : Paletted)
    (overlayColor : colorfulColor) :
  ColorNil ∉ Palette src ->
  exists dst',
    prepareFrame src dst overlayColor = Some dst' /\
    forall (i : nat) (pixel : Color),
      Palette src !! i = Some pixel ->
      exists r g b alpha out,
        Color_RGBA pixel = Some (r, g, b, alpha) /\
        Palette dst' !! i = Some out /\
        (alpha = 0 \/ (MakeColor pixel).2 = false -> out = pixel) /\
        (alpha <> 0 -> (MakeColor pixel).2 = true ->
         exists R G B r' g' b',
           out = ColorNRGBA R G B 255 /\
           Color_RGBA out = Some (r', g', b', 65535)).
Proof.
  intros Hnil.
  destruct (prepareFrame_total src dst overlayColor Hnil) as [dst' Hd].
  exists dst'. split; [done|].
  apply prepareFrame_Some in Hd as (outs & Hm & ->). simpl.
  intros i pixel Hi. apply mapM_Some in Hm.
  destruct (Forall2_lookup_l _ _ _ _ _ Hm Hi) as (out & Ho & He).
  unfold prepareEntry in He.
  destruct (Color_RGBA pixel) as [[[[r g] b] alpha]|]; [|done].
  exists r, g, b, alpha, out. split; [done|]. split; [done|].
  destruct (MakeColor pixel) as [cp ok]. simpl.
  destruct (Z.eqb_spec alpha 0) as [->|Ha]; simpl in He.
  - injection He as <-. split; [done|]. by intros [].
  - destruct ok; simpl in He.
    + destruct (RGB255 _) as [[R G] B]. injection He as <-. split.
      * intros [?|?]; done.
      * intros _ _. exists R, G, B. eexists _, _, _. split; [done|].
        simpl. reflexivity.
    + injection He as <-. split; [done|]. done.
Qed.

Lemma prepareFrame_transparency_witness :
  (ColorNil ∉ Palette Sample.frame0) /\
  exists dst',
    @prepareFrame Sample.lib Sample.frame0 newPaletted zeroColor = Some dst' /\
    forall (i : nat) (pixel : Color),
      Palette Sample.frame0 !! i = Some pixel ->
      exists r g b alpha out,
        Color_RGBA pixel = Some (r, g, b, alpha) /\
        Palette dst' !! i = Some out /\
        (alpha = 0 \/ (@MakeColor Sample.lib pixel).2 = false ->
         out = pixel) /\
        (alpha <> 0 -> (@MakeColor Sample.lib pixel).2 = true ->
         exists R G B r' g' b',
           out = ColorNRGBA R G B 255 /\
           Color_RGBA out = Some (r', g', b', 65535)).
Proof.
  assert (Hnil : ColorNil ∉ Palette Sample.frame0).
  { intros Hin. repeat (apply elem_of_cons in Hin as [Hin|Hin]; [done|]).
    by apply elem_of_nil in Hin. }
  split; [exact Hnil|].
  exact (@prepareFrame_transparency Sample.lib Sample.frame0 newPaletted
           zeroColor Hnil).
Defined.

(** The entries of the sample frame, computed: the opaque one is blended
    and made fully opaque, the transparent one is kept as it is. *)
Example prepareFrame_frame0 :
  Palette <$> @prepareFrame Sample.lib Sample.frame0 newPaletted
                {| cR := 1; cG := 0; cB := 0 |}
  = Some [ColorNRGBA 227 0 0 255; ColorRGBA 0 0 0 0].
Proof. vm_compute. reflexivity. Qed.

(** ** parseGradientColors *)

(** [Hex] accepts the digits of a colour exactly when there are six of
    them, all hexadecimal. *)
Lemma Hex_sixHexDigits (hex : string) :
  match Hex ("#" +:+ hex) with
  | inl _ => sixHexDigits hex = true
  | inr _ => sixHexDigits hex = false
  end.
Proof.
  change ("#" +:+ hex) with (String "#"%char hex).
  destruct hex as [|a [|b [|c [|d [|e [|f [|g rest]]]]]]]; try reflexivity.
  unfold sixHexDigits, Hex, hexByte, isHexDigit. cbn.
  destruct (hexDigit a), (hexDigit b), (hexDigit c), (hexDigit d),
    (hexDigit e), (hexDigit f); reflexivity.
Qed.

Lemma parseLoop_spec (colorHexes : list string) :
  forall (i : nat) (colors : list colorfulColor),
    match parseLoop i colorHexes colors with
    | inr err =>
        exists hex, hex ∈ colorHexes /\ sixHexDigits hex = false /\
                    err = "Invalid color: " +:+ hex
    | inl parsed =>
        Forall (fun hex => sixHexDigits hex = true) colorHexes /\
        length parsed = length colors
    end.
Proof.
  induction colorHexes as [|hex rest IH]; intros i colors; cbn [parseLoop].
  - split; [constructor|done].
  - pose proof (Hex_sixHexDigits hex) as Hh.
    destruct (Hex ("#" +:+ hex)) as [color|e].
    + specialize (IH (S i) (<[i:=color]> colors)).
      destruct (parseLoop _ _ _) as [parsed|err].
      * destruct IH as [Hall Hlen]. split; [by constructor|].
        by rewrite Hlen, length_insert.
      * destruct IH as (h & Hin & Hbad & ->). exists h.
        split; [by apply list_elem_of_further|done].
    + exists hex. split; [apply list_elem_of_here|done].
Qed.

(** C6. An empty gradient string yields the built-in rainbow: the six
    colours red, orange, yellow, green, blue and violet, in this order,
    with the channels of the source, which are those of the 8-bit colours
    (255, 0, 0), (255, 127, 0), (255, 255, 0), (0, 255, 0), (0, 0, 255)
    and (139, 0, 255) divided by 255. Any other string is cut at its
    commas; the call fails, with the error [Invalid color: ] followed by
    the offending piece, exactly when some piece is not exactly six
    hexadecimal digits, and otherwise returns one colour per piece. *)
Theorem parseGradientColors_spec (gradientColors : string) :
  (gradientColors = EmptyString /\
   parseGradientColors gradientColors = inl rainbow /\
   length rainbow = 6%nat /\
   parseGradientColors gradientColors
   = inl [ {| cR := 1; cG := 0; cB := 0 |};
           {| cR := 1; cG := 127 / 255; cB := 0 |};
           {| cR := 1; cG := 1; cB := 0 |};
           {| cR := 0; cG := 1; cB := 0 |};
           {| cR := 0; cG := 0; cB := 1 |};
           {| cR := 139 / 255; cG := 0; cB := 1 |} ]%float /\
   parseGradientColors gradientColors
   = inl ((fun '(r, g, b) =>
             {| cR := float64 r / 255; cG := float64 g / 255;
                cB := float64 b / 255 |})
          <$> [ (255, 0, 0); (255, 127, 0); (255, 255, 0);
                (0, 255, 0); (0, 0, 255); (139, 0, 255) ]))
  \/
  (gradientColors <> EmptyString /\
   match parseGradientColors gradientColors with
   | inr err =>
       exists hex, hex ∈ Split gradientColors /\ sixHexDigits hex = false /\
                   err = "Invalid color: " +:+ hex
   | inl colors =>
       Forall (fun hex => sixHexDigits hex = true) (Split gradientColors) /\
       length colors = length (Split gradientColors)
   end).
Proof.
  destruct gradientColors as [|c rest].
  - left. repeat split; vm_compute; reflexivity.
  - right. split; [done|].
    unfold parseGradientColors.
    change (negb (String.length (String c rest) =? 0)%nat) with true.
    cbv iota.
    pose proof (parseLoop_spec (Split (String c rest)) 0
      (replicate (length (Split (String c rest))) zeroColor)) as Hp.
    cbv zeta. destruct (parseLoop _ _ _) as [colors|err]; [|done].
    destruct Hp as [Hall Hlen]. split; [done|].
    by rewrite Hlen, length_replicate.
Qed.

(** The six colours of the default are the red, orange, yellow, green,
    blue and violet that the gradient syntax itself would give. *)
Example rainbow_by_name :
  parseGradientColors "ff0000,ff7f00,ffff00,00ff00,0000ff,8b00ff"
  = parseGradientColors "".
Proof. vm_compute. reflexivity. Qed.

Example parseGradientColors_short :
  parseGradientColors "ff0000,00ff0" = inr "Invalid color: 00ff0".
Proof. vm_compute. reflexivity. Qed.

Example parseGradientColors_trailing_comma :
  parseGradientColors "ff0000," = inr "Invalid color: ".
Proof. vm_compute. reflexivity. Qed.

(** ** The goroutines, step by step *)

Section WorkerFacts.
Context `{ColorLib}.
Variable sh : Shared.

Lemma run_app (a b : list nat) (s : State) :
  run sh (a ++ b) s =
  match run sh a s with
  | Running s' => run sh b s'
  | r => r
  end.
Proof.
  revert s. induction a as [|t a IH]; intros s; simpl; [done|].
  destruct (step sh t s); auto.
Qed.

Lemma preserved_refl s : preserved s s.
Proof. by repeat split. Qed.

Lemma preserved_trans s1 s2 s3 :
  preserved s1 s2 -> preserved s2 s3 -> preserved s1 s3.
Proof.
  intros (A1 & B1 & C1 & D1) (A2 & B2 & C2 & D2).
  repeat split; try congruence; auto.
Qed.

Lemma preserved_setPC t w p s s' :
  workers s' !! t = Some w ->
  preserved s s' -> preserved s (setPC t w p s').
Proof.
  intros Hw (A & B & C & D). unfold setPC. repeat split; simpl.
  - by rewrite length_insert.
  - done.
  - done.
  - intros Hp. apply Forall_insert; [by apply D|]. simpl.
    eapply Forall_lookup_1 in Hw; [|by apply D]. done.
Qed.

Lemma work_preserved t s s' :
  work sh t s = inl s' ->
  workers s' = workers s /\
  length (newFrames s') = length (newFrames s) /\
  (Forall is_Some (newFrames s) -> Forall is_Some (newFrames s')).
Proof.
  unfold work. intros Hw.
  repeat (case_match; try done). simplify_eq. simpl.
  split; [done|]. split; [by rewrite length_insert|].
  intros Hall. apply Forall_insert; eauto.
Qed.

Lemma normalize_fields s :
  frameIndex (normalize sh s) = frameIndex s /\
  newFrames (normalize sh s) = newFrames s /\
  workers (normalize sh s) = workers s /\
  barrier (normalize sh s) = barrier s /\
  log (normalize sh s) = log s.
Proof. unfold normalize. by destruct (_ >=? _). Qed.

Lemma step_preserved t s s' :
  step sh t s = Running s' -> preserved s s'.
Proof.
  unfold step. intros Hs.
  destruct (workers s !! t) as [w|] eqn:Hw; [|done].
  destruct (pc w); try done.
  - destruct (_ <? _); injection Hs as <-;
      by apply preserved_setPC, preserved_refl.
  - destruct (_ >=? _); injection Hs as <-;
      by apply preserved_setPC, preserved_refl.
  - injection Hs as <-.
    destruct (normalize_fields s) as (_ & E2 & E3 & _).
    apply preserved_setPC; [by rewrite E3|].
    unfold preserved. rewrite E2, E3. by repeat split.
  - destruct (work sh t s) as [s1|p] eqn:Hwork; [|done].
    injection Hs as <-.
    apply work_preserved in Hwork as (Hws & Hlen & Hsome).
    apply preserved_setPC; [by rewrite Hws|].
    repeat split; try done. all: by rewrite Hws.
  - injection Hs as <-. apply preserved_setPC; [done|by repeat split].
  - injection Hs as <-. apply preserved_setPC; [done|by repeat split].
  - injection Hs as <-. apply preserved_setPC; [done|by repeat split].
Qed.

Lemma run_preserved schedule :
  forall s s', run sh schedule s = Running s' -> preserved s s'.
Proof.
  induction schedule as [|t schedule IH]; intros s s' Hr; simpl in Hr.
  - injection Hr as <-. apply preserved_refl.
  - destruct (step sh t s) as [s1| |] eqn:Hs; try done.
    eapply preserved_trans; [by apply step_preserved in Hs|by apply IH].
Qed.

Lemma reachable_preserved s s' : reachable sh s s' -> preserved s s'.
Proof. intros [schedule Hr]. by eapply run_preserved. Qed.

(** The only step that takes a goroutine to its send is the check of
    [frameIndex], as long as its [processed] is below the quota. *)
Lemma step_to_send t s s' w w' :
  step sh t s = Running s' ->
  workers s !! t = Some w ->
  workers s' !! t = Some w' ->
  pc w <> AtSend -> pc w' = AtSend ->
  processed w < framesPerThread sh ->
  pc w = AtCheck /\ frameIndex s >= len (newFrames s).
Proof.
  unfold step. intros Hs Hw Hw' Hpc Hpc' Hq. rewrite Hw in Hs.
  assert (Hlt : (t < length (workers s))%nat) by by eapply lookup_lt_Some.
  assert (Hset : forall p s1, s' = setPC t w p s1 ->
            workers s1 = workers s -> p = AtSend).
  { intros p s1 -> Hws. unfold setPC in Hw'. simpl in Hw'.
    rewrite list_lookup_insert_eq in Hw' by (by rewrite Hws).
    injection Hw' as <-. done. }
  destruct (pc w) eqn:Ew; try done.
  - destruct (Z.ltb_spec (processed w) (framesPerThread sh)); [|lia].
    injection Hs as <-. by specialize (Hset _ _ eq_refl eq_refl).
  - destruct (Z.geb_spec (frameIndex s) (len (newFrames s))).
    + split; [done|lia].
    + injection Hs as <-. by specialize (Hset _ _ eq_refl eq_refl).
  - injection Hs as <-.
    destruct (normalize_fields s) as (_ & _ & E3 & _).
    by specialize (Hset _ _ eq_refl E3).
  - destruct (work sh t s) as [s1|p] eqn:Hwork; [|done].
    injection Hs as <-.
    apply work_preserved in Hwork as (Hws & _ & _).
    by specialize (Hset _ _ eq_refl Hws).
  - injection Hs as <-. by specialize (Hset _ _ eq_refl eq_refl).
  - injection Hs as <-. by specialize (Hset _ _ eq_refl eq_refl).
Qed.

End WorkerFacts.

(** ** One goroutine running alone *)

Section Alone.
Context `{ColorLib}.
Variable sh : Shared.

Lemma lookup_setPC t w p s :
  (t < length (workers s))%nat ->
  workers (setPC t w p s) !! t = Some (at_pc w p).
Proof. intros Ht. unfold setPC. simpl. by apply list_lookup_insert_eq. Qed.

Lemma step_at t s w :
  workers s !! t = Some w ->
  step sh t s =
  match pc w with
  | AtLoop =>
      if processed w <? framesPerThread sh
      then Running (setPC t w AtCheck s)
      else Running (setPC t w AtSend s)
  | AtCheck =>
      if frameIndex s >=? len (newFrames s)
      then Running (setPC t w AtSend s)
      else Running (setPC t w AtNormalize s)
  | AtNormalize => Running (setPC t w AtWork (normalize sh s))
  | AtWork =>
      match work sh t s with
      | inr p => Panics p s
      | inl s' => Running (setPC t w AtIncFrame s')
      end
  | AtIncFrame =>
      Running (setPC t w AtIncNorm
        (set_frameIndex (GoInt.add (frameIndex s) 1) s))
  | AtIncNorm =>
      Running (setPC t w AtLoop
        (set_normalizedFrameIndex
           (GoInt.add (normalizedFrameIndex s) 1) s))
  | AtSend =>
      Running (setPC t w Finished
        (set_barrier (GoInt.add (barrier s) 1) s))
  | Finished => NotRunnable
  end.
Proof. intros Hw. unfold step. by rewrite Hw. Qed.

Lemma add_1 x : GoInt.minInt <= x < GoInt.maxInt -> GoInt.add x 1 = x + 1.
Proof.
  intros Hx. unfold GoInt.add. apply wrap_inRange.
  unfold GoInt.inRange. lia.
Qed.

(** A whole iteration of the loop by goroutine [t], nobody else moving
    in between: six steps. *)
Lemma iteration t s w src dst overlayColor dst' :
  workers s !! t = Some w ->
  pc w = AtLoop ->
  processed w < framesPerThread sh ->
  0 <= frameIndex s < len (newFrames s) ->
  frameIndex s < GoInt.maxInt ->
  let nfi := normalizedFrameIndex (normalize sh s) in
  GoInt.minInt <= nfi < GoInt.maxInt ->
  idx (img_Image sh) nfi = Some (Some src) ->
  idx (newFrames s) (frameIndex s) = Some (Some dst) ->
  idx (overlayColors sh) (frameIndex s) = Some overlayColor ->
  prepareFrame src dst overlayColor = Some dst' ->
  run sh (alone t 6) s =
  Running
    {| frameIndex := frameIndex s + 1;
       normalizedFrameIndex := nfi + 1;
       newFrames := <[Z.to_nat (frameIndex s) := Some dst']> (newFrames s);
       workers := <[t := at_pc w AtLoop]> (workers s);
       barrier := barrier s;
       log := log s ++ [{| writer := t; slot := frameIndex s;
                           source := nfi |}] |}.
Proof.
  intros Hw Hpc Hq Hfi Hmax nfi Hnfi Hsrc Hdst Hov Hprep.
  assert (Ht : (t < length (workers s))%nat) by by eapply lookup_lt_Some.
  destruct (normalize_fields sh s) as (N1 & N2 & N3 & N4 & N5).
  unfold alone. cbn [replicate run].
  (* for processed < framesPerThread *)
  rewrite (step_at t s w Hw), Hpc.
  destruct (Z.ltb_spec (processed w) (framesPerThread sh)); [|lia].
  (* if frameIndex >= len(newFrames) *)
  rewrite (step_at t _ (at_pc w AtCheck)) by lookup_worker.
  cbn [pc at_pc frameIndex newFrames setPC].
  destruct (Z.geb_spec (frameIndex s) (len (newFrames s))); [lia|].
  (* if normalizedFrameIndex >= len(img.Image) *)
  rewrite (step_at t _ (at_pc w AtNormalize))
    by lookup_worker.
  cbn [pc at_pc].
  (* prepareFrame(...) *)
  rewrite (step_at t _ (at_pc w AtWork)).
  2:{ lookup_worker. }
  cbn [pc at_pc]. unfold work.
  cbn [frameIndex normalizedFrameIndex newFrames setPC].
  replace (normalizedFrameIndex (normalize sh _)) with nfi
    by (subst nfi; unfold normalize; simpl; by destruct (_ >=? _)).
  replace (newFrames (normalize sh _)) with (newFrames s)
    by (unfold normalize; simpl; by destruct (_ >=? _)).
  replace (frameIndex (normalize sh _)) with (frameIndex s)
    by (unfold normalize; simpl; by destruct (_ >=? _)).
  rewrite Hsrc, Hdst, Hov, Hprep.
  (* frameIndex++ *)
  rewrite (step_at t _ (at_pc w AtIncFrame)).
  2:{ lookup_worker. }
  cbn [pc at_pc].
  (* normalizedFrameIndex++ *)
  rewrite (step_at t _ (at_pc w AtIncNorm)).
  2:{ lookup_worker. }
  cbn [pc at_pc].
  f_equal. unfold setPC, set_frameIndex, set_normalizedFrameIndex.
  cbn [frameIndex normalizedFrameIndex newFrames workers barrier log
       at_pc base processed].
  rewrite !add_1
    by (unfold GoInt.minInt, GoInt.maxInt, GoInt.bits in *; lia).
  replace (barrier (normalize sh _)) with (barrier s)
    by (unfold normalize; simpl; by destruct (_ >=? _)).
  replace (log (normalize sh _)) with (log s)
    by (unfold normalize; simpl; by destruct (_ >=? _)).
  replace (workers (normalize sh _))
    with (<[t := at_pc w AtNormalize]> (workers s))
    by (unfold normalize; simpl; destruct (_ >=? _); simpl;
        by rewrite list_insert_insert_eq).
  rewrite !list_insert_insert_eq. reflexivity.
Qed.

(** Goroutine [t] finds nothing left and signs off: three steps. *)
Lemma signing_off t s w :
  workers s !! t = Some w ->
  pc w = AtLoop ->
  processed w < framesPerThread sh ->
  frameIndex s >= len (newFrames s) ->
  GoInt.minInt <= barrier s < GoInt.maxInt ->
  run sh (alone t 3) s =
  Running
    {| frameIndex := frameIndex s;
       normalizedFrameIndex := normalizedFrameIndex s;
       newFrames := newFrames s;
       workers := <[t := at_pc w Finished]> (workers s);
       barrier := barrier s + 1;
       log := log s |}.
Proof.
  intros Hw Hpc Hq Hfi Hb.
  assert (Ht : (t < length (workers s))%nat) by by eapply lookup_lt_Some.
  unfold alone. cbn [replicate run].
  rewrite (step_at t s w Hw), Hpc.
  destruct (Z.ltb_spec (processed w) (framesPerThread sh)); [|lia].
  rewrite (step_at t _ (at_pc w AtCheck)) by lookup_worker.
  cbn [pc at_pc frameIndex newFrames setPC].
  destruct (Z.geb_spec (frameIndex s) (len (newFrames s))); [|lia].
  rewrite (step_at t _ (at_pc w AtSend))
    by lookup_worker.
  cbn [pc at_pc].
  f_equal. unfold setPC, set_barrier.
  cbn [frameIndex normalizedFrameIndex newFrames workers barrier log
       at_pc base processed].
  rewrite add_1
    by (unfold GoInt.minInt, GoInt.maxInt, GoInt.bits in *; lia).
  by rewrite !list_insert_insert_eq.
Qed.

End Alone.

(** ** The goroutines one after the other *)

Section OneAfterTheOther.
Context `{ColorLib}.
Variable sh : Shared.
Variable frames : list (option Paletted).
Variable threads : Z.

Hypothesis Hsources : 1 <= len (img_Image sh) <= GoInt.maxInt.
Hypothesis Hwf : Forall wellFormedFrame (img_Image sh).
Hypothesis Hframes : len frames <= GoInt.maxInt.
Hypothesis Hnonnil : Forall is_Some frames.
Hypothesis Hoverlay : len (overlayColors sh) = len frames.
Hypothesis Hquota : 1 <= framesPerThread sh.
Hypothesis Hthreads : 1 <= threads <= GoInt.maxInt.

Local Abbreviation n := (len (img_Image sh)).
Local Abbreviation F := (length frames).

Lemma spawn_lookup (t : nat) :
  (t < Z.to_nat threads)%nat ->
  spawn threads !! t
  = Some {| base := Z.of_nat t; pc := AtLoop; processed := 0 |}.
Proof.
  intros Ht. unfold spawn. rewrite list_lookup_fmap.
  rewrite lookup_seq_lt by done. done.
Qed.

Lemma spawn_length : length (spawn threads) = Z.to_nat threads.
Proof. unfold spawn. by rewrite length_map, length_seq. Qed.

Lemma expectedFrame_is_Some (j : nat) :
  (j < F)%nat -> is_Some (expectedFrame sh (Z.of_nat j)).
Proof.
  intros Hj. unfold expectedFrame.
  destruct (idx_is_Some (img_Image sh) (Z.of_nat j mod n)) as [src Hsrc].
  { apply Z.mod_pos_bound. lia. }
  rewrite Hsrc.
  destruct (idx_is_Some (overlayColors sh) (Z.of_nat j)) as [o Ho].
  { rewrite Hoverlay. unfold len. lia. }
  rewrite Ho.
  assert (Hin : src ∈ img_Image sh).
  { unfold idx in Hsrc. destruct (_ <? _); [done|].
    by eapply list_elem_of_lookup_2. }
  eapply Forall_forall in Hin; [|exact Hwf].
  destruct Hin as (p & -> & Hnil).
  by apply prepareFrame_total.
Qed.

Lemma between_initial : between sh frames threads 0 (initial frames threads).
Proof.
  unfold between, initial. simpl. repeat split; try done.
  intros j Hj. lia.
Qed.

Lemma normalize_nfiAfter (k : nat) s :
  normalizedFrameIndex s = nfiAfter n (Z.of_nat k) ->
  normalizedFrameIndex (normalize sh s) = Z.of_nat k mod n.
Proof.
  intros Hs. unfold normalize. rewrite Hs. unfold nfiAfter.
  assert (Hn : 1 <= n) by lia.
  destruct (Z.eqb_spec (Z.of_nat k) 0) as [Hk|Hk].
  - destruct (Z.geb_spec 0 n); [lia|]. rewrite Hs, Hk. unfold nfiAfter.
    simpl. by rewrite Z.mod_0_l by lia.
  - pose proof (Z.mod_pos_bound (Z.of_nat k - 1) n ltac:(lia)) as Hb.
    destruct (Z.geb_spec ((Z.of_nat k - 1) mod n + 1) n) as [Hge|Hlt];
      simpl.
    + assert (Hm : (Z.of_nat k - 1) mod n = n - 1) by lia.
      apply Z.mod_unique_pos with (q := (Z.of_nat k - 1) / n + 1);
        [lia|].
      pose proof (Z.div_mod (Z.of_nat k - 1) n ltac:(lia)). lia.
    + rewrite Hs. unfold nfiAfter.
      destruct (Z.eqb_spec (Z.of_nat k) 0) as [Hz|Hz]; [lia|].
      apply Z.mod_unique_pos with (q := (Z.of_nat k - 1) / n);
        [lia|].
      pose proof (Z.div_mod (Z.of_nat k - 1) n ltac:(lia)). lia.
Qed.

Lemma between_iteration (k : nat) s :
  (k < F)%nat -> between sh frames threads k s ->
  exists s', run sh (alone 0 6) s = Running s' /\ between sh frames threads (S k) s'.
Proof.
  intros Hk (Hfi & Hnfi & Hws & Hb & Hlen & Hdone & Htodo & Hlog).
  assert (Hmax : Z.of_nat F <= GoInt.maxInt) by exact Hframes.
  pose proof (normalize_nfiAfter k s Hnfi) as Hnorm.
  assert (Hn : 1 <= n) by lia.
  pose proof (Z.mod_pos_bound (Z.of_nat k) n ltac:(lia)) as Hmod.
  destruct (expectedFrame_is_Some k Hk) as [dst' Hexp].
  unfold expectedFrame in Hexp.
  destruct (idx (img_Image sh) (Z.of_nat k mod n)) as [[src|]|] eqn:Hsrc;
    try done.
  destruct (idx (overlayColors sh) (Z.of_nat k)) as [o|] eqn:Ho;
    try done.
  assert (Hdst : exists dst, newFrames s !! k = Some (Some dst)).
  { rewrite Htodo by lia.
    destruct (lookup_lt_is_Some_2 frames k Hk) as [d Hd].
    rewrite Hd. eapply Forall_lookup_1 in Hd; [|exact Hnonnil].
    destruct Hd as [dst ->]. eauto. }
  destruct Hdst as [dst Hdst].
  eexists. split.
  - eapply (iteration sh 0 s _ src dst o dst').
    + rewrite Hws. apply spawn_lookup. lia.
    + done.
    + simpl. lia.
    + rewrite Hfi. unfold len. rewrite Hlen. lia.
    + rewrite Hfi. lia.
    + rewrite Hnorm. unfold GoInt.minInt, GoInt.maxInt, GoInt.bits in *.
      lia.
    + by rewrite Hnorm.
    + by rewrite Hfi, idx_lookup.
    + by rewrite Hfi.
    + by rewrite <- Hexp.
  - unfold between. simpl. rewrite Hnorm, Hfi, Nat2Z.id.
    repeat split.
    + lia.
    + unfold nfiAfter. destruct (Z.eqb_spec (Z.of_nat (S k)) 0) as [Hz|Hz]; [lia|].
      do 2 f_equal. lia.
    + rewrite Hws. apply list_insert_id. apply spawn_lookup. lia.
    + done.
    + by rewrite length_insert.
    + intros j Hj. destruct (decide (j = k)) as [->|Hne].
      * rewrite list_lookup_insert_eq by lia.
        f_equal. unfold expectedFrame. by rewrite Hsrc, Ho.
      * rewrite list_lookup_insert_ne by done. apply Hdone. lia.
    + intros j Hj. rewrite list_lookup_insert_ne by lia. apply Htodo. lia.
    + rewrite Hlog. unfold writesBy. rewrite seq_S, fmap_app. done.
Qed.

Lemma between_iterations (m : nat) :
  forall (k : nat) s,
    (k + m = F)%nat -> between sh frames threads k s ->
    exists s', run sh (alone 0 (6 * m)) s = Running s' /\
               between sh frames threads F s'.
Proof.
  induction m as [|m IH]; intros k s Hkm Hs.
  - exists s. split; [done|]. by replace F with k by lia.
  - destruct (between_iteration k s ltac:(lia) Hs) as (s1 & Hr1 & Hs1).
    destruct (IH (S k) s1 ltac:(lia) Hs1) as (s' & Hr & Hs').
    exists s'. split; [|done].
    replace (6 * S m)%nat with (6 + 6 * m)%nat by lia.
    unfold alone in *. rewrite replicate_add, run_app, Hr1.
    exact Hr.
Qed.

(** The goroutines [c], [c + 1], ... sign off in turn. *)
Lemma signing_off_all (m : nat) :
  forall (c : nat) s,
    (c + m = Z.to_nat threads)%nat ->
    frameIndex s >= len (newFrames s) ->
    workers s = ((fun w => at_pc w Finished) <$> take c (spawn threads))
                ++ drop c (spawn threads) ->
    barrier s = Z.of_nat c ->
    exists s',
      run sh (flat_map (fun t => alone t 3) (seq c m)) s
      = Running s' /\
      frameIndex s' = frameIndex s /\
      normalizedFrameIndex s' = normalizedFrameIndex s /\
      newFrames s' = newFrames s /\
      log s' = log s /\
      workers s' = (fun w => at_pc w Finished) <$> spawn threads /\
      barrier s' = threads.
Proof.
  induction m as [|m IH]; intros c s Hcm Hfi Hws Hb.
  - exists s. simpl. repeat split; try done.
    + rewrite Hws, take_ge, drop_ge by (rewrite spawn_length; lia).
      by rewrite app_nil_r.
    + lia.
  - assert (Hc : (c < Z.to_nat threads)%nat) by lia.
    assert (Hw : workers s !! c
                 = Some {| base := Z.of_nat c; pc := AtLoop;
                           processed := 0 |}).
    { rewrite Hws, lookup_app_r
        by (rewrite length_fmap, length_take, spawn_length; lia).
      rewrite length_fmap, length_take, spawn_length, lookup_drop.
      rewrite <- (spawn_lookup c Hc). f_equal. lia. }
    pose proof (signing_off sh c s _ Hw eq_refl ltac:(simpl; lia) Hfi) as Hr.
    specialize (Hr ltac:(unfold GoInt.minInt, GoInt.maxInt, GoInt.bits in *;
                         lia)).
    change (seq c (S m)) with (c :: seq (S c) m). cbn [flat_map].
    rewrite run_app, Hr.
    match goal with
    | |- context [run sh _ ?st] =>
        destruct (IH (S c) st) as (s' & Hr' & E1 & E2 & E3 & E4 & E5 & E6)
    end.
    + lia.
    + done.
    + cbn [workers]. rewrite Hws.
      rewrite (take_S_r _ _ _ (spawn_lookup c Hc)), fmap_app.
      rewrite <- app_assoc.
      rewrite insert_app_r_alt
        by (rewrite length_fmap, length_take, spawn_length; lia).
      rewrite length_fmap, length_take, spawn_length.
      replace (c - c `min` Z.to_nat threads)%nat with 0%nat by lia.
      f_equal. rewrite (drop_S _ _ _ (spawn_lookup c Hc)). done.
    + cbn [barrier]. lia.
    + exists s'. split; [exact Hr'|]. done.
Qed.

(** Goroutine 0 prepares every slot, in order, each from the source
    frame and the overlay colour of its index; then every goroutine
    signs off and main is released. *)
Lemma run_oneAfterTheOther :
  exists s,
    run sh (oneAfterTheOther (Z.to_nat threads) F)
        (initial frames threads) = Running s /\
    joined threads s = true /\
    frameIndex s = Z.of_nat F /\
    newFrames s = (fun j => expectedFrame sh (Z.of_nat j)) <$> seq 0 F /\
    Forall is_Some (newFrames s) /\
    log s = writesBy 0 n F /\
    Forall (fun w => pc w = Finished) (workers s).
Proof.
  destruct (between_iterations F 0%nat (initial frames threads)
              ltac:(lia) between_initial) as (s1 & Hr1 & Hs1).
  destruct Hs1 as (Hfi & Hnfi & Hws & Hb & Hlen & Hdone & Htodo & Hlog).
  destruct (signing_off_all (Z.to_nat threads) 0%nat s1) as
    (s & Hr & E1 & E2 & E3 & E4 & E5 & E6).
  - lia.
  - rewrite Hfi. unfold len. rewrite Hlen. lia.
  - rewrite Hws. by rewrite take_0, drop_0.
  - by rewrite Hb.
  - exists s. split.
    + unfold oneAfterTheOther, alone.
      rewrite replicate_add, <- app_assoc, run_app.
      unfold alone in Hr1. rewrite Hr1.
      replace (seq 0 (Z.to_nat threads))
        with (0%nat :: seq 1 (Z.to_nat threads - 1)) in Hr.
      * exact Hr.
      * destruct (Z.to_nat threads) as [|m] eqn:Em; [lia|].
        simpl. by rewrite Nat.sub_0_r.
    + assert (Hnew : newFrames s
                     = (fun j => expectedFrame sh (Z.of_nat j)) <$> seq 0 F).
      { rewrite E3. apply list_eq. intros j.
        rewrite list_lookup_fmap.
        destruct (decide (j < F)%nat) as [Hj|Hj].
        - rewrite Hdone by done. by rewrite lookup_seq_lt.
        - rewrite lookup_seq_ge by lia.
          apply lookup_ge_None. lia. }
      repeat split.
      * unfold joined. rewrite E6. apply Z.eqb_refl.
      * by rewrite E1.
      * done.
      * rewrite Hnew. apply Forall_fmap, Forall_forall.
        intros j Hj%elem_of_seq. apply expectedFrame_is_Some. lia.
      * by rewrite E4.
      * rewrite E5. apply Forall_fmap, Forall_forall. done.
Qed.

End OneAfterTheOther.

(** ** The pieces of main *)

Lemma frameCountOf_inRange (img : GIF) (loopCount : Z) :
  1 <= loopCount -> len (Image img) * loopCount <= GoInt.maxInt ->
  frameCountOf img loopCount = len (Image img) * loopCount.
Proof.
  intros Hl Hmax. unfold frameCountOf, GoInt.mul. apply wrap_inRange.
  unfold GoInt.inRange, GoInt.minInt, GoInt.maxInt, GoInt.bits, len in *.
  nia.
Qed.

Lemma allocLoop_spec (todo : nat) :
  forall (i : nat) (newFrames : list (option Paletted)),
    (i + todo = length newFrames)%nat ->
    allocLoop i todo newFrames
    = take i newFrames ++ replicate todo (Some newPaletted).
Proof.
  induction todo as [|todo IH]; intros i l Hlen; simpl.
  - by rewrite app_nil_r, take_ge by lia.
  - rewrite IH by (rewrite length_insert; lia).
    rewrite (take_S_r _ _ (Some newPaletted))
      by (apply list_lookup_insert_eq; lia).
    rewrite take_insert_ge by lia. by rewrite <- app_assoc.
Qed.

Lemma allocFrames_spec (frameCount : Z) :
  0 <= frameCount ->
  allocFrames frameCount
  = Some (replicate (Z.to_nat frameCount) (Some newPaletted)).
Proof.
  intros Hf. unfold allocFrames, make.
  destruct (Z.ltb_spec frameCount 0); [lia|].
  rewrite allocLoop_spec by done. by rewrite length_replicate.
Qed.

Lemma allocFrames_negative (frameCount : Z) :
  frameCount < 0 -> allocFrames frameCount = None.
Proof.
  intros Hf. unfold allocFrames, make.
  by destruct (Z.ltb_spec frameCount 0); [|lia].
Qed.

Lemma generate_length `{ColorLib} (g : Gradient) (frameCount : Z) :
  0 <= frameCount -> len (generate g frameCount) = frameCount.
Proof.
  intros Hf. unfold generate, len. rewrite length_map, length_seq. lia.
Qed.

Lemma framesPerThreadOf_spec (img : GIF) (threads : Z) :
  1 <= threads -> len (Image img) < GoInt.maxInt ->
  exists q, framesPerThreadOf img threads = Some q /\
            q = len (Image img) / threads + 1 /\ 1 <= q.
Proof.
  intros Ht Hn. unfold framesPerThreadOf, GoInt.div.
  destruct (Z.eqb_spec threads 0); [lia|].
  assert (Hq : 0 <= Z.quot (len (Image img)) threads <= len (Image img)).
  { rewrite Z.quot_div_nonneg by (unfold len; lia). split.
    - apply Z.div_pos; unfold len; lia.
    - apply Z.div_le_upper_bound; [lia|]. unfold len in *. nia. }
  assert (Hr : GoInt.inRange (Z.quot (len (Image img)) threads)).
  { unfold GoInt.inRange, GoInt.minInt, GoInt.maxInt, GoInt.bits in *. lia. }
  eexists. split; [reflexivity|]. rewrite (wrap_inRange _ Hr).
  unfold GoInt.add. rewrite wrap_inRange.
  - rewrite Z.quot_div_nonneg in * by (unfold len; lia). split; lia.
  - unfold GoInt.inRange, GoInt.minInt, GoInt.maxInt, GoInt.bits in *. lia.
Qed.

Lemma cycleLoop_spec (old : list Z) (todo : nat) :
  old <> [] ->
  forall (i : nat) (new : list Z),
    (i + todo = length new)%nat ->
    exists new',
      cycleLoop old i todo new = inl new' /\
      length new' = length new /\
      (forall j : nat, (j < i)%nat -> new' !! j = new !! j) /\
      (forall j : nat, (i <= j < i + todo)%nat ->
         new' !! j = old !! (j mod length old)%nat).
Proof.
  intros Hold.
  assert (Hlen : (0 < length old)%nat) by (destruct old; simpl; [done|lia]).
  induction todo as [|todo IH]; intros i new Hi; simpl.
  - exists new. do 3 (split; [done|]). intros j Hj. lia.
  - unfold GoInt.rem. destruct (Z.eqb_spec (len old) 0) as [E|_];
      [unfold len in E; lia|].
    rewrite Z.rem_mod_nonneg by (unfold len; lia).
    unfold len. rewrite <- Nat2Z.inj_mod, idx_lookup.
    destruct (lookup_lt_is_Some_2 old (i mod length old)) as [v Hv].
    { apply Nat.mod_upper_bound. lia. }
    rewrite Hv.
    destruct (IH (S i) (<[i:=v]> new)) as (new' & Hr & Hl & Hbefore & Hafter).
    { rewrite length_insert. lia. }
    exists new'. split; [done|]. split; [by rewrite Hl, length_insert|].
    split.
    + intros j Hj. rewrite Hbefore by lia.
      by rewrite list_lookup_insert_ne by lia.
    + intros j Hj. destruct (decide (j = i)) as [->|Hne].
      * rewrite Hbefore by lia. rewrite list_lookup_insert_eq by lia. done.
      * apply Hafter. lia.
Qed.

Lemma cycleLoop_length (old : list Z) (todo : nat) :
  forall (i : nat) (new new' : list Z),
    cycleLoop old i todo new = inl new' -> length new' = length new.
Proof.
  induction todo as [|todo IH]; intros i new new' Hc; simpl in Hc.
  - by injection Hc as <-.
  - repeat (case_match; try done). apply IH in Hc.
    by rewrite Hc, length_insert.
Qed.

(** The new array is as long as asked for and repeats the old one. *)
Lemma cycled_spec (old : list Z) (n : nat) (new : list Z) :
  cycled old n = inl new ->
  length new = n /\
  forall i : Z, 0 <= i < Z.of_nat n ->
    is_Some (idx new i) /\ idx new i = idx old (i mod len old).
Proof.
  intros Hc. unfold cycled in Hc.
  pose proof (cycleLoop_length _ _ _ _ _ Hc) as Hl.
  rewrite length_replicate in Hl. split; [done|].
  intros i Hi. split.
  { apply idx_is_Some. unfold len. lia. }
  destruct old as [|v old].
  { destruct n as [|n]; [lia|]. simpl in Hc. done. }
  destruct (cycleLoop_spec (v :: old) n ltac:(done) 0%nat (replicate n 0))
    as (new' & Hr & _ & _ & Hafter).
  { by rewrite length_replicate. }
  rewrite Hr in Hc. injection Hc as ->.
  replace i with (Z.of_nat (Z.to_nat i)) at 1 by lia.
  rewrite idx_lookup, Hafter by lia.
  unfold len. replace i with (Z.of_nat (Z.to_nat i)) at 2 by lia.
  by rewrite <- Nat2Z.inj_mod, idx_lookup.
Qed.

Lemma cycled_total (old : list Z) (n : nat) :
  old <> [] -> exists new, cycled old n = inl new.
Proof.
  intros Hold.
  destruct (cycleLoop_spec old n Hold 0%nat (replicate n 0))
    as (new' & Hr & _).
  { by rewrite length_replicate. }
  eauto.
Qed.

(** ** main *)

Section MainFacts.
Context `{ColorLib}.

(** What has happened in a run that got as far as the encoder. *)
Lemma main_encoded fl w schedule out g :
  encoded (main fl w schedule) = Some (out, g) ->
  exists colors input output file img newFrames0 fpt s,
    1 <= threads fl /\ 1 <= loopCount fl /\
    parseGradientColors (gradientColors fl) = inl colors /\
    positionalArgs fl = [input; output] /\
    os_Open w input = inl file /\
    gif_DecodeAll w file = inl img /\
    allocFrames (frameCountOf img (loopCount fl)) = Some newFrames0 /\
    framesPerThreadOf img (threads fl) = Some fpt /\
    run (sharedOf fl colors img fpt) schedule
        (initial newFrames0 (threads fl)) = Running s /\
    joined (threads fl) s = true /\
    os_OpenFile w output = inl out /\
    Image g = newFrames s /\
    cycled (Delay img) (length (newFrames s)) = inl (Delay g) /\
    cycled (Disposal img) (length (newFrames s)) = inl (Disposal g) /\
    LoopCount g = LoopCount img /\
    GConfig g = {| ColorModel := None; Width := Width (GConfig img);
                   Height := Height (GConfig img) |} /\
    BackgroundIndex g = 0 /\
    prepared (main fl w schedule) = log s /\
    match gif_EncodeAll w out g with
    | None => status (main fl w schedule) = Returned /\
              stdout (main fl w schedule) = []
    | Some err =>
        status (main fl w schedule) = Exited 1 /\
        stdout (main fl w schedule) = ["Error encoding image:  " +:+ err]
    end.
Proof.
  unfold main, process, finish, sharedOf.
  destruct (Z.leb_spec (threads fl) 0); [done|].
  destruct (parseGradientColors _) as [colors|] eqn:E1; [|done].
  destruct (Z.ltb_spec (loopCount fl) 1); [done|].
  destruct (positionalArgs fl) as [|input [|output [|]]] eqn:E2; try done.
  destruct (os_Open w input) as [file|] eqn:E3; [|done].
  destruct (gif_DecodeAll w file) as [img|] eqn:E4; [|done].
  destruct (allocFrames _) as [newFrames0|] eqn:E5; [|done].
  destruct (framesPerThreadOf img (threads fl)) as [fpt|] eqn:E6; [|done].
  destruct (run _ schedule _) as [s| |] eqn:E7; try done.
  destruct (joined (threads fl) s) eqn:Hj; [|done].
  destruct (cycled (Delay img) _) as [newDelay|] eqn:E8; [|done].
  destruct (cycled (Disposal img) _) as [newDisposal|] eqn:E9; [|done].
  destruct (os_OpenFile w output) as [file'|] eqn:E10; [|done].
  cbn [Image Delay Disposal LoopCount GConfig BackgroundIndex Width Height].
  destruct (gif_EncodeAll w file' _) as [err|] eqn:He;
    cbn [encoded exit1]; intros [= <- <-];
    exists colors, input, output, file, img, newFrames0, fpt, s;
    rewrite He; repeat split; try done; lia.
Qed.

(** With a decoded animation, a frame count that fits an [int] and the
    goroutines scheduled one after the other, [main] gets to the encoder,
    and every slot holds the frame it is meant to hold. *)
Lemma main_oneAfterTheOther fl w colors input output file img out :
  1 <= threads fl <= GoInt.maxInt -> 1 <= loopCount fl ->
  parseGradientColors (gradientColors fl) = inl colors ->
  positionalArgs fl = [input; output] ->
  os_Open w input = inl file ->
  gif_DecodeAll w file = inl img ->
  decoded img ->
  len (Image img) * loopCount fl <= GoInt.maxInt ->
  os_OpenFile w output = inl out ->
  let F := Z.to_nat (len (Image img) * loopCount fl) in
  let r := main fl w (oneAfterTheOther (Z.to_nat (threads fl)) F) in
  exists g fpt,
    encoded r = Some (out, g) /\
    framesPerThreadOf img (threads fl) = Some fpt /\
    Image g = (fun j => expectedFrame (sharedOf fl colors img fpt)
                          (Z.of_nat j)) <$> seq 0 F /\
    prepared r = writesBy 0 (len (Image img)) F.
Proof.
  intros Ht Hl Hparse Hargs Hopen Hdec (Hn & Hwf & Hdelay & Hdisp) Hmax
    Hout F r.
  assert (HF : 0 <= len (Image img) * loopCount fl) by (unfold len; nia).
  destruct (framesPerThreadOf_spec img (threads fl))
    as (fpt & Hfpt & _ & Hq); [lia|lia|].
  set (frames := replicate F (Some newPaletted)).
  destruct (run_oneAfterTheOther (sharedOf fl colors img fpt) frames
              (threads fl)) as (s & Hr & Hj & Hfi & Hnew & Hsome & Hlog & _).
  { simpl. lia. }
  { done. }
  { unfold frames, len in *. rewrite length_replicate. subst F. lia. }
  { apply Forall_replicate. eauto. }
  { simpl. rewrite generate_length
      by (rewrite frameCountOf_inRange by done; done).
    rewrite frameCountOf_inRange by done.
    unfold frames, len in *. rewrite length_replicate. subst F. lia. }
  { done. }
  { done. }
  unfold frames in Hr, Hnew, Hlog. rewrite length_replicate in Hr, Hnew, Hlog.
  assert (Hlen : length (newFrames s) = F).
  { by rewrite Hnew, length_fmap, length_seq. }
  destruct (cycled_total (Delay img) F) as [newDelay HD].
  { intros E. rewrite E in Hdelay. unfold len in *. simpl in Hdelay. lia. }
  destruct (cycled_total (Disposal img) F) as [newDisposal HP].
  { intros E. rewrite E in Hdisp. unfold len in *. simpl in Hdisp. lia. }
  subst r. unfold main, process.
  destruct (Z.leb_spec (threads fl) 0); [lia|]. rewrite Hparse.
  destruct (Z.ltb_spec (loopCount fl) 1); [lia|].
  rewrite Hargs, Hopen, Hdec.
  rewrite (frameCountOf_inRange img (loopCount fl)) by done.
  rewrite allocFrames_spec by done. rewrite Hfpt.
  fold F. unfold sharedOf in Hr.
  rewrite (frameCountOf_inRange img (loopCount fl)) in Hr by done.
  rewrite Hr, Hj. unfold finish. rewrite Hlen, HD, HP, Hout.
  simpl in Hlog.
  destruct (gif_EncodeAll w out _); simpl; eexists _, fpt;
    (split; [reflexivity|]); (split; [done|]);
    (split; [exact Hnew|exact Hlog]).
Qed.

End MainFacts.

Section ExitFacts.
Context `{ColorLib}.

Lemma finish_exit w output img s code :
  status (finish w output img s) = Exited code ->
  code = 1 /\ exists line, stdout (finish w output img s) = [line].
Proof.
  unfold finish.
  destruct (cycled (Delay img) _); [|done].
  destruct (cycled (Disposal img) _); [|done].
  destruct (os_OpenFile w output); [|intros [= <-]; simpl; eauto].
  destruct (gif_EncodeAll w _ _); [intros [= <-]; simpl; eauto|done].
Qed.

Lemma finish_returned w output img s :
  status (finish w output img s) = Returned ->
  exists out g, encoded (finish w output img s) = Some (out, g).
Proof.
  unfold finish.
  destruct (cycled (Delay img) _); [|done].
  destruct (cycled (Disposal img) _); [|done].
  destruct (os_OpenFile w output); [|done].
  destruct (gif_EncodeAll w _ _); [done|]. simpl. eauto.
Qed.

Lemma process_exit fl w schedule colors output img code :
  status (process fl w schedule colors output img) = Exited code ->
  code = 1 /\
  exists line, stdout (process fl w schedule colors output img) = [line].
Proof.
  unfold process.
  destruct (allocFrames _); [|done].
  destruct (framesPerThreadOf _ _); [|done].
  destruct (run _ schedule _); try done.
  destruct (joined _ _); [|done]. apply finish_exit.
Qed.

Lemma process_returned fl w schedule colors output img :
  status (process fl w schedule colors output img) = Returned ->
  exists out g,
    encoded (process fl w schedule colors output img) = Some (out, g).
Proof.
  unfold process.
  destruct (allocFrames _); [|done].
  destruct (framesPerThreadOf _ _); [|done].
  destruct (run _ schedule _); try done.
  destruct (joined _ _); [|done]. apply finish_returned.
Qed.

Lemma main_returned fl w schedule :
  status (main fl w schedule) = Returned ->
  exists out g, encoded (main fl w schedule) = Some (out, g).
Proof.
  unfold main.
  destruct (_ <=? _); [done|].
  destruct (parseGradientColors _); [|done].
  destruct (_ <? _); [done|].
  destruct (positionalArgs fl) as [|input [|output [|]]]; try done.
  destruct (os_Open w input); [|done].
  destruct (gif_DecodeAll w _); [|done].
  apply process_returned.
Qed.

End ExitFacts.

Lemma lineCount_app (a b : string) :
  lineCount (a +:+ b) = (lineCount a + lineCount b)%nat.
Proof.
  induction a as [|c a IH]; [done|].
  change (String c a +:+ b) with (String c (a +:+ b)).
  cbn [lineCount]. rewrite IH. lia.
Qed.

(** One call of [Println]: the lines written are one more than the line
    feeds of the text. *)
Lemma output_one_Println (r : Run) (prefix text : string) :
  stdout r = [prefix +:+ text] -> lineCount prefix = 0%nat ->
  lineCount (output r) = S (lineCount text).
Proof.
  intros Hs Hp. unfold output. rewrite Hs. cbn [foldr]. unfold Println.
  rewrite !lineCount_app, Hp.
  change (lineCount (String lineFeed EmptyString)) with 1%nat.
  change (lineCount EmptyString) with 0%nat. lia.
Qed.

Lemma parseGradientColors_error (gradient : string) (err : error) :
  parseGradientColors gradient = inr err ->
  exists hex, hex ∈ Split gradient /\ err = "Invalid color: " +:+ hex.
Proof.
  destruct gradient as [|c rest]; [done|].
  unfold parseGradientColors.
  change (negb (String.length (String c rest) =? 0)%nat) with true.
  cbv iota zeta. intros Hp.
  pose proof (parseLoop_spec (Split (String c rest)) 0
    (replicate (length (Split (String c rest))) zeroColor)) as Hs.
  rewrite Hp in Hs. destruct Hs as (hex & Hin & _ & ->). eauto.
Qed.

Section ExitText.
Context `{ColorLib}.

Lemma finish_exit_text w output img s code :
  status (finish w output img s) = Exited code ->
  exists text,
    (os_OpenFile w output = inr text /\
     stdout (finish w output img s) = ["Error opening file:  " +:+ text]) \/
    (exists out g,
       gif_EncodeAll w out g = Some text /\
       stdout (finish w output img s)
       = ["Error encoding image:  " +:+ text]).
Proof.
  unfold finish.
  destruct (cycled (Delay img) _); [|done].
  destruct (cycled (Disposal img) _); [|done].
  destruct (os_OpenFile w output) as [out|err]; [|intros _; simpl; eauto].
  destruct (gif_EncodeAll w _ _) as [err|] eqn:He; [|done].
  intros _. exists err. right. simpl. eauto.
Qed.

Lemma process_exit_text fl w schedule colors output img code :
  status (process fl w schedule colors output img) = Exited code ->
  exists text,
    (os_OpenFile w output = inr text /\
     stdout (process fl w schedule colors output img)
     = ["Error opening file:  " +:+ text]) \/
    (exists out g,
       gif_EncodeAll w out g = Some text /\
       stdout (process fl w schedule colors output img)
       = ["Error encoding image:  " +:+ text]).
Proof.
  unfold process.
  destruct (allocFrames _); [|done].
  destruct (framesPerThreadOf _ _); [|done].
  destruct (run _ schedule _); try done.
  destruct (joined _ _); [|done]. apply finish_exit_text.
Qed.

(** Once the goroutines are joined and the delays and disposal codes are
    cycled, [main] is at [os.OpenFile]. *)
Lemma main_joined fl w schedule colors input output file img newFrames0
    fpt s newDelay newDisposal :
  1 <= threads fl -> 1 <= loopCount fl ->
  parseGradientColors (gradientColors fl) = inl colors ->
  positionalArgs fl = [input; output] ->
  os_Open w input = inl file -> gif_DecodeAll w file = inl img ->
  allocFrames (frameCountOf img (loopCount fl)) = Some newFrames0 ->
  framesPerThreadOf img (threads fl) = Some fpt ->
  run (sharedOf fl colors img fpt) schedule
      (initial newFrames0 (threads fl)) = Running s ->
  joined (threads fl) s = true ->
  cycled (Delay img) (length (newFrames s)) = inl newDelay ->
  cycled (Disposal img) (length (newFrames s)) = inl newDisposal ->
  main fl w schedule = finish w output img s.
Proof.
  intros Ht Hl Hp Ha Ho Hd Hal Hfpt Hr Hj HD HP.
  unfold main, process.
  destruct (Z.leb_spec (threads fl) 0); [lia|]. rewrite Hp.
  destruct (Z.ltb_spec (loopCount fl) 1); [lia|].
  rewrite Ha, Ho, Hd. cbv zeta. rewrite Hal, Hfpt.
  unfold sharedOf in Hr. rewrite Hr, Hj. reflexivity.
Qed.

End ExitText.

(** C9. [main] leaves with [os.Exit(1)] after exactly one call of
    [Println], before any frame is prepared and before the encoder is
    called, when the thread count is not positive, a gradient colour is
    invalid, the loop count is not positive, there are not exactly two
    positional arguments, the input file does not open or does not
    decode. Once the goroutines are joined, it leaves in the same way,
    after the frames have been prepared, when the output file does not
    open (the encoder is then not called) or when the encoder fails. No
    exit has another code or another number of calls of [Println], and
    [main] returns normally only if both files opened, the input decoded
    and the encoder succeeded. The text printed is one of seven: three
    fixed messages, or a fixed prefix followed by the rejected piece of
    the gradient or by the text of the error; the lines written are one
    more than the line feeds of that piece or text, so the message is one
    line exactly when the text it carries holds no line feed. *)
Theorem main_exit_codes `{ColorLib} (fl : Flags) (w : World)
    (schedule : list nat) :
  let r := main fl w schedule in
  (threads fl <= 0 \/
   (exists err, parseGradientColors (gradientColors fl) = inr err) \/
   loopCount fl < 1 \/
   length (positionalArgs fl) <> 2%nat \/
   (exists input output err,
      positionalArgs fl = [input; output] /\ os_Open w input = inr err) \/
   (exists input output file err,
      positionalArgs fl = [input; output] /\ os_Open w input = inl file /\
      gif_DecodeAll w file = inr err) ->
   status r = Exited 1 /\ (exists line, stdout r = [line]) /\
   prepared r = [] /\ encoded r = None)
  /\
  (forall colors input output file img newFrames0 fpt s newDelay
          newDisposal,
     1 <= threads fl -> 1 <= loopCount fl ->
     parseGradientColors (gradientColors fl) = inl colors ->
     positionalArgs fl = [input; output] ->
     os_Open w input = inl file -> gif_DecodeAll w file = inl img ->
     allocFrames (frameCountOf img (loopCount fl)) = Some newFrames0 ->
     framesPerThreadOf img (threads fl) = Some fpt ->
     run (sharedOf fl colors img fpt) schedule
         (initial newFrames0 (threads fl)) = Running s ->
     joined (threads fl) s = true ->
     cycled (Delay img) (length (newFrames s)) = inl newDelay ->
     cycled (Disposal img) (length (newFrames s)) = inl newDisposal ->
     prepared r = log s /\
     match os_OpenFile w output with
     | inr err =>
         status r = Exited 1 /\
         stdout r = ["Error opening file:  " +:+ err] /\
         encoded r = None
     | inl out =>
         exists g,
           encoded r = Some (out, g) /\
           match gif_EncodeAll w out g with
           | Some err =>
               status r = Exited 1 /\
               stdout r = ["Error encoding image:  " +:+ err]
           | None => status r = Returned /\ stdout r = []
           end
     end)
  /\
  (forall out g err,
     encoded r = Some (out, g) -> gif_EncodeAll w out g = Some err ->
     status r = Exited 1 /\ stdout r = ["Error encoding image:  " +:+ err])
  /\
  (forall code,
     status r = Exited code ->
     code = 1 /\
     exists prefix text,
       stdout r = [prefix +:+ text] /\
       lineCount (output r) = S (lineCount text) /\
       ((prefix = "Thread count must be at least 1" /\
         text = EmptyString) \/
        (prefix = "Invalid color: " /\
         text ∈ Split (gradientColors fl)) \/
        (prefix = "Loop count must be at least 1" /\
         text = EmptyString) \/
        (prefix = "Expected two positional arguments: input and output" /\
         text = EmptyString) \/
        (prefix = "Error opening file:  " /\
         exists name,
           os_Open w name = inr text \/ os_OpenFile w name = inr text) \/
        (prefix = "Error decoding:  " /\
         exists file, gif_DecodeAll w file = inr text) \/
        (prefix = "Error encoding image:  " /\
         exists out g, gif_EncodeAll w out g = Some text)))
  /\
  (status r = Returned ->
   stdout r = [] /\
   exists input output file img out g,
     positionalArgs fl = [input; output] /\
     os_Open w input = inl file /\ gif_DecodeAll w file = inl img /\
     os_OpenFile w output = inl out /\
     encoded r = Some (out, g) /\ gif_EncodeAll w out g = None).
Proof.
  intros r. split; [|split; [|split; [|split]]].
  - subst r. unfold main.
    destruct (Z.leb_spec (threads fl) 0) as [Ht|Ht]; [simpl; eauto 10|].
    destruct (parseGradientColors _) as [colors|e]; [|simpl; eauto 10].
    destruct (Z.ltb_spec (loopCount fl) 1) as [Hl|Hl]; [simpl; eauto 10|].
    destruct (positionalArgs fl) as [|input [|output [|]]];
      try (simpl; eauto 10).
    destruct (os_Open w input) as [file|e] eqn:Ho; [|simpl; eauto 10].
    destruct (gif_DecodeAll w file) as [img|e] eqn:Hd; [|simpl; eauto 10].
    intros [?|[[? ?]|[?|[Hlen|[(i & o & e & Ha & He)|(i & o & f & e & Ha & Ho' & Hd')]]]]].
    + lia.
    + done.
    + lia.
    + simpl in Hlen. done.
    + injection Ha as <- <-. congruence.
    + injection Ha as <- <-. congruence.
  - intros colors input output file img newFrames0 fpt s newDelay
      newDisposal Ht Hl Hp Ha Ho Hd Hal Hfpt Hr Hj HD HP.
    subst r.
    rewrite (main_joined fl w schedule colors input output file img
               newFrames0 fpt s newDelay newDisposal) by done.
    unfold finish. rewrite HD, HP.
    destruct (os_OpenFile w output) as [out|err]; [|done].
    split; [by destruct (gif_EncodeAll w out _)|].
    eexists. split; [by destruct (gif_EncodeAll w out _)|].
    by destruct (gif_EncodeAll w out _).
  - intros out g err He Henc.
    destruct (main_encoded fl w schedule out g He)
      as (? & ? & ? & ? & ? & ? & ? & ? & Hfacts).
    destruct Hfacts as (_ & _ & _ & _ & _ & _ & _ & _ & _ & _ & _ & _ & _ &
                        _ & _ & _ & _ & _ & Hst).
    rewrite Henc in Hst. exact Hst.
  - intros code Hst.
    assert (Hone : forall prefix text,
              stdout r = [prefix +:+ text] ->
              (prefix = "Thread count must be at least 1" \/
               prefix = "Invalid color: " \/
               prefix = "Loop count must be at least 1" \/
               prefix
               = "Expected two positional arguments: input and output" \/
               prefix = "Error opening file:  " \/
               prefix = "Error decoding:  " \/
               prefix = "Error encoding image:  ") ->
              lineCount (output r) = S (lineCount text)).
    { intros prefix text Hs Hprefix. apply (output_one_Println r prefix);
        [done|].
      destruct Hprefix as [->|[->|[->|[->|[->|[->| ->]]]]]]; reflexivity. }
    revert Hst Hone. subst r. unfold main.
    destruct (Z.leb_spec (threads fl) 0) as [Ht|Ht].
    { intros [= <-] Hone. split; [done|].
      exists "Thread count must be at least 1", EmptyString.
      split; [done|]. split; [apply (Hone "Thread count must be at least 1" EmptyString); [done|tauto]|tauto]. }
    destruct (parseGradientColors _) as [colors|e] eqn:Hp.
    2:{ intros [= <-] Hone. split; [done|].
        apply parseGradientColors_error in Hp as (hex & Hin & ->).
        exists "Invalid color: ", hex.
        split; [done|]. split; [apply (Hone "Invalid color: " hex); [done|tauto]|tauto]. }
    destruct (Z.ltb_spec (loopCount fl) 1) as [Hl|Hl].
    { intros [= <-] Hone. split; [done|].
      exists "Loop count must be at least 1", EmptyString.
      split; [done|]. split; [apply (Hone "Loop count must be at least 1" EmptyString); [done|tauto]|tauto]. }
    destruct (positionalArgs fl) as [|input [|output [|]]];
      try (intros [= <-] Hone; split; [done|];
           exists "Expected two positional arguments: input and output", EmptyString;
           split; [done|]; split; [apply (Hone "Expected two positional arguments: input and output" EmptyString); [done|tauto]|tauto]).
    destruct (os_Open w input) as [file|e] eqn:Ho.
    2:{ intros [= <-] Hone. split; [done|].
        exists "Error opening file:  ", e.
        split; [done|]. split; [apply (Hone "Error opening file:  " e); [done|tauto]|].
        do 4 right. left. eauto. }
    destruct (gif_DecodeAll w file) as [img|e] eqn:Hd.
    2:{ intros [= <-] Hone. split; [done|].
        exists "Error decoding:  ", e.
        split; [done|]. split; [apply (Hone "Error decoding:  " e); [done|tauto]|].
        do 5 right. left. eauto. }
    intros Hst Hone.
    split; [by destruct (process_exit _ _ _ _ _ _ _ Hst)|].
    destruct (process_exit_text _ _ _ _ _ _ _ Hst)
      as (text & [[Hof Hs]|(out & g & Henc & Hs)]).
    + exists "Error opening file:  ", text.
      split; [done|]. split; [apply (Hone "Error opening file:  " text); [done|tauto]|].
      do 4 right. left. eauto.
    + exists "Error encoding image:  ", text.
      split; [done|]. split; [apply (Hone "Error encoding image:  " text); [done|tauto]|].
      do 6 right. eauto.
  - intros Hret. destruct (main_returned fl w schedule Hret) as (out & g & He).
    destruct (main_encoded fl w schedule out g He)
      as (colors & input & output & file & img & nf & fpt & s & Hfacts).
    destruct Hfacts as (_ & _ & _ & Ha & Ho & Hd & _ & _ & _ & _ & Hof & _ &
                        _ & _ & _ & _ & _ & _ & Hst).
    destruct (gif_EncodeAll w out g) as [err|] eqn:Henc.
    + destruct Hst as [Hst _]. subst r. congruence.
    + destruct Hst as [_ Hst]. split; [exact Hst|].
      exists input, output, file, img, out, g. done.
Qed.

(** C9, the output file does not open: one frame has been prepared, the
    encoder is not called, and [main] leaves with exit code 1 and the
    line of the error. *)
Lemma main_exit_codes_witness :
  let w := {| os_Open name := inl name;
              gif_DecodeAll _ := inl (Sample.animation [Sample.frame0]);
              os_OpenFile _ := inr ("permission denied" : error);
              gif_EncodeAll _ _ := None |} in
  let r := @main Sample.lib (Sample.flags 1 "" 1) w (oneAfterTheOther 1 1) in
  length (prepared r) = 1%nat /\
  status r = Exited 1 /\
  stdout r = ["Error opening file:  permission denied"] /\
  encoded r = None /\
  lineCount (output r) = 1%nat.
Proof.
  intros w r.
  destruct (@main_exit_codes Sample.lib (Sample.flags 1 "" 1) w
              (oneAfterTheOther 1 1)) as (_ & Hopen & _).
  destruct (@run Sample.lib
              (@sharedOf Sample.lib (Sample.flags 1 "" 1) rainbow
                 (Sample.animation [Sample.frame0]) 2)
              (oneAfterTheOther 1 1)
              (initial [Some newPaletted] 1)) as [s| |] eqn:Hrun;
    [|vm_compute in Hrun; discriminate..].
  assert (Hs := Hrun). vm_compute in Hs. injection Hs as Hs.
  assert (Hfacts :
            prepared r = log s /\
            status r = Exited 1 /\
            stdout r = ["Error opening file:  permission denied"] /\
            encoded r = None).
  { apply (Hopen rainbow "in.gif" "out.gif" "in.gif"
             (Sample.animation [Sample.frame0]) [Some newPaletted] 2 s
             [10] [1]);
      first [exact Hrun | reflexivity | simpl; lia
            | rewrite <- Hs; reflexivity]. }
  destruct Hfacts as (Hprep & Hst & Hout & Henc).
  split; [by rewrite Hprep, <- Hs|].
  split; [exact Hst|]. split; [exact Hout|]. split; [exact Henc|].
  unfold output. rewrite Hout. vm_compute. reflexivity.
Defined.

(** C9, the message is not always one line. A gradient whose second
    piece starts with a line feed is rejected with exit code 1 before any
    frame is prepared, and the call of [Println] writes two lines,
    [Invalid color: ] and [00ff00]. In the same way, when the input file
    does not open and the text of the error holds a line feed (here the
    one of the file name, which an error of [os.Open] repeats), the one
    call of [Println] writes two lines. *)
Theorem message_of_two_lines :
  (let gradient := "ff0000," +:+ String lineFeed "00ff00" in
   let r := @main Sample.lib (Sample.flags 1 gradient 1)
              (Sample.world (Sample.animation [Sample.frame0])) [] in
   status r = Exited 1 /\ prepared r = [] /\ encoded r = None /\
   stdout r = ["Invalid color: " +:+ String lineFeed "00ff00"] /\
   output r
   = "Invalid color: "
     +:+ String lineFeed ("00ff00" +:+ String lineFeed EmptyString) /\
   lineCount (output r) = 2%nat)
  /\
  (let input := "in" +:+ String lineFeed ".gif" in
   let w := {| os_Open name :=
                 inr ("open " +:+ name +:+ ": no such file or directory");
               gif_DecodeAll _ := inl (Sample.animation [Sample.frame0]);
               os_OpenFile name := inl name;
               gif_EncodeAll _ _ := None |} in
   let r := @main Sample.lib
              {| threads := 1; gradientColors := EmptyString;
                 loopCount := 1; positionalArgs := [input; "out.gif"] |}
              w [] in
   status r = Exited 1 /\ prepared r = [] /\ encoded r = None /\
   output r
   = "Error opening file:  open in"
     +:+ String lineFeed
           (".gif: no such file or directory"
            +:+ String lineFeed EmptyString) /\
   lineCount (output r) = 2%nat).
Proof. vm_compute. done. Qed.

(** Each cause of C9, run: the line printed and the exit code. *)
Example exit_threads :
  let r := @main Sample.lib (Sample.flags 0 "" 1)
             (Sample.world (Sample.animation [Sample.frame0])) [] in
  (stdout r, status r) = (["Thread count must be at least 1"], Exited 1).
Proof. vm_compute. reflexivity. Qed.

Example exit_gradient :
  let r := @main Sample.lib (Sample.flags 1 "ff0000,12345" 1)
             (Sample.world (Sample.animation [Sample.frame0])) [] in
  (stdout r, status r) = (["Invalid color: 12345"], Exited 1).
Proof. vm_compute. reflexivity. Qed.

Example exit_loop_count :
  let r := @main Sample.lib (Sample.flags 1 "" 0)
             (Sample.world (Sample.animation [Sample.frame0])) [] in
  (stdout r, status r) = (["Loop count must be at least 1"], Exited 1).
Proof. vm_compute. reflexivity. Qed.

Example exit_arguments :
  let r := @main Sample.lib
             {| threads := 1; gradientColors := ""; loopCount := 1;
                positionalArgs := ["in.gif"] |}
             (Sample.world (Sample.animation [Sample.frame0])) [] in
  (stdout r, status r)
  = (["Expected two positional arguments: input and output"], Exited 1).
Proof. vm_compute. reflexivity. Qed.

Example exit_encoder :
  let w := Sample.world (Sample.animation [Sample.frame0]) in
  let r := @main Sample.lib (Sample.flags 1 "" 1)
             {| os_Open := os_Open w; gif_DecodeAll := gif_DecodeAll w;
                os_OpenFile := os_OpenFile w;
                gif_EncodeAll _ _ := Some "disk full" |}
             (oneAfterTheOther 1 1) in
  (stdout r, status r, length (prepared r))
  = (["Error encoding image:  disk full"], Exited 1, 1%nat).
Proof. vm_compute. reflexivity. Qed.

(** ** The quota of a goroutine *)

(** C10. In every state the goroutines can reach, under any schedule, the
    local [processed] of every goroutine is 0: it is initialised to 0 and
    no statement increments it. So the test [processed < framesPerThread]
    always passes ([framesPerThread = len(img.Image)/threads + 1 >= 1])
    and a goroutine leaves its loop only from the check of [frameIndex],
    with [frameIndex >= len(newFrames)]. With [threads = 1], the single
    goroutine prepares every one of the [frameCount = len(newFrames)]
    slots, in order, however [frameCount] compares with
    [framesPerThread]. *)
Theorem quota_never_bounds `{ColorLib} (img : GIF) (threads : Z)
    (overlay : list colorfulColor) (frames : list (option Paletted)) :
  1 <= threads -> len (Image img) < GoInt.maxInt ->
  exists fpt,
    framesPerThreadOf img threads = Some fpt /\
    fpt = len (Image img) / threads + 1 /\ 1 <= fpt /\
    let sh := {| img_Image := Image img; overlayColors := overlay;
                 framesPerThread := fpt |} in
    (forall s,
       reachable sh (initial frames threads) s ->
       Forall (fun w => processed w = 0) (workers s)) /\
    (forall s t s' w w',
       reachable sh (initial frames threads) s ->
       step sh t s = Running s' ->
       workers s !! t = Some w -> workers s' !! t = Some w' ->
       pc w <> AtSend -> pc w' = AtSend ->
       pc w = AtCheck /\ frameIndex s >= len (newFrames s)) /\
    (threads = 1 ->
     1 <= len (Image img) -> Forall wellFormedFrame (Image img) ->
     Forall is_Some frames -> len frames <= GoInt.maxInt ->
     len overlay = len frames ->
     exists s,
       run sh (alone 0 (6 * length frames + 3))
           (initial frames threads) = Running s /\
       joined threads s = true /\
       frameIndex s = len frames /\
       log s = writesBy 0 (len (Image img)) (length frames) /\
       newFrames s
       = (fun j => expectedFrame sh (Z.of_nat j)) <$> seq 0 (length frames)).
Proof.
  intros Ht Hn.
  destruct (framesPerThreadOf_spec img threads Ht Hn)
    as (fpt & Hfpt & Hdiv & Hq).
  exists fpt. split; [done|]. split; [done|]. split; [done|]. intros sh.
  assert (Hzero : forall s,
            reachable sh (initial frames threads) s ->
            Forall (fun w => processed w = 0) (workers s)).
  { intros s Hr.
    apply reachable_preserved in Hr as (_ & _ & _ & Hp). apply Hp.
    unfold initial, spawn. simpl. apply Forall_fmap, Forall_forall. done. }
  split; [exact Hzero|]. split.
  - intros s t s' w w' Hr Hs Hw Hw' Hpc Hpc'.
    eapply step_to_send; eauto.
    specialize (Hzero s Hr).
    eapply Forall_lookup_1 in Hzero; [|exact Hw]. simpl in Hzero.
    simpl. lia.
  - intros -> Hn1 Hwf Hsome Hlen Hov.
    destruct (run_oneAfterTheOther sh frames 1)
      as (s & Hr & Hj & Hfi & Hnew & _ & Hlog & _); try done.
    { subst sh. cbn [img_Image]. lia. }
    exists s. unfold oneAfterTheOther in Hr. simpl flat_map in Hr.
    rewrite app_nil_r in Hr. done.
Qed.

(** Two source frames played three times by one goroutine: the quota is
    3, and all 6 slots are prepared. *)
Lemma quota_never_bounds_witness :
  let img := Sample.animation [Sample.frame0; Sample.frame1] in
  let frames := replicate 6 (Some newPaletted) in
  let overlay := @generate Sample.lib (newGradient rainbow true) 6 in
  1 <= 1 /\ len (Image img) < GoInt.maxInt /\
  framesPerThreadOf img 1 = Some 3 /\
  exists s,
    @run Sample.lib
      {| img_Image := Image img; overlayColors := overlay;
         framesPerThread := 3 |}
      (alone 0 (6 * 6 + 3)) (initial frames 1) = Running s /\
    frameIndex s = 6 /\
    log s = writesBy 0 2 6.
Proof.
  intros img frames overlay.
  assert (H1 : 1 <= 1) by lia.
  assert (H2 : len (Image img) < GoInt.maxInt) by (vm_compute; reflexivity).
  split; [exact H1|]. split; [exact H2|]. split; [reflexivity|].
  destruct (@quota_never_bounds Sample.lib img 1 overlay frames H1 H2)
    as (fpt & Hfpt & _ & _ & _ & _ & Hseq).
  injection Hfpt as <-.
  destruct Hseq as (s & Hr & _ & Hfi & Hlog & _).
  - reflexivity.
  - vm_compute. discriminate.
  - repeat constructor; eexists; (split; [reflexivity|]);
      intros Hin;
      repeat (apply elem_of_cons in Hin as [Hin|Hin]; [done|]);
      by apply elem_of_nil in Hin.
  - repeat constructor; eauto.
  - vm_compute. discriminate.
  - reflexivity.
  - exists s. split; [exact Hr|]. split; [exact Hfi|exact Hlog].
Defined.

(** ** The number of frames *)

Section Lengths.
Context `{ColorLib}.

(** The goroutines never change the length of [newFrames] nor make a
    slot nil. *)
Lemma reachable_newFrames sh frames threads s :
  Forall is_Some frames ->
  reachable sh (initial frames threads) s ->
  len (newFrames s) = len frames /\ Forall is_Some (newFrames s).
Proof.
  intros Hsome Hr. apply reachable_preserved in Hr as (_ & Hlen & Hs & _).
  split; [unfold len; by rewrite Hlen|by apply Hs].
Qed.

End Lengths.

(** C5, as the code has it. For a source animation of [n] frames and a
    loop count of at least 1 whose product fits an [int]:
    [frameCount = n * loopCount]; the overlay sequence has [frameCount]
    colours; [newFrames] has [frameCount] slots, none of them nil, when
    the goroutines start and in every state they reach; and the animation
    handed to the encoder has [frameCount] frames, none nil. With a
    decoded animation and the goroutines run one after the other, the
    program does get to the encoder, having prepared each of the
    [frameCount] slots once. *)
Theorem frameCount_lengths `{ColorLib} (fl : Flags) (w : World)
    (input output : string) (file : File) (img : GIF) :
  positionalArgs fl = [input; output] ->
  os_Open w input = inl file ->
  gif_DecodeAll w file = inl img ->
  1 <= loopCount fl ->
  len (Image img) * loopCount fl <= GoInt.maxInt ->
  let frameCount := frameCountOf img (loopCount fl) in
  frameCount = len (Image img) * loopCount fl /\
  (forall colors,
     len (generate (newGradient colors true) frameCount) = frameCount) /\
  (exists newFrames0,
     allocFrames frameCount = Some newFrames0 /\
     len newFrames0 = frameCount /\
     Forall is_Some newFrames0 /\
     forall sh s,
       reachable sh (initial newFrames0 (threads fl)) s ->
       len (newFrames s) = frameCount /\ Forall is_Some (newFrames s)) /\
  (forall schedule out g,
     encoded (main fl w schedule) = Some (out, g) ->
     len (Image g) = frameCount /\ Forall is_Some (Image g)) /\
  (1 <= threads fl <= GoInt.maxInt ->
   (exists colors, parseGradientColors (gradientColors fl) = inl colors) ->
   (exists out, os_OpenFile w output = inl out) ->
   decoded img ->
   exists schedule out g,
     encoded (main fl w schedule) = Some (out, g) /\
     prepared (main fl w schedule)
     = writesBy 0 (len (Image img)) (Z.to_nat frameCount)).
Proof.
  intros Hargs Hopen Hdec Hl Hmax frameCount.
  assert (Hfc : frameCount = len (Image img) * loopCount fl)
    by by apply frameCountOf_inRange.
  assert (Hpos : 0 <= frameCount) by (rewrite Hfc; unfold len; nia).
  assert (Halloc : allocFrames frameCount
                   = Some (replicate (Z.to_nat frameCount)
                             (Some newPaletted)))
    by by apply allocFrames_spec.
  assert (Hlen0 : len (replicate (Z.to_nat frameCount) (Some newPaletted))
                  = frameCount).
  { unfold len. rewrite length_replicate. lia. }
  assert (Hsome0 : Forall is_Some
                     (replicate (Z.to_nat frameCount) (Some newPaletted))).
  { apply Forall_replicate. eauto. }
  split; [exact Hfc|]. split; [|split; [|split]].
  - intros colors. by apply generate_length.
  - eexists. split; [exact Halloc|]. split; [exact Hlen0|].
    split; [exact Hsome0|].
    intros sh s Hr.
    destruct (reachable_newFrames sh _ _ s Hsome0 Hr) as [Hlen Hs].
    split; [by rewrite Hlen|done].
  - intros schedule out g He.
    destruct (main_encoded fl w schedule out g He)
      as (colors & input' & output' & file' & img' & nf & fpt & s & Hfacts).
    destruct Hfacts as (_ & _ & _ & Ha & Ho & Hd & Hal & _ & Hr & _ & _ &
                        Himg & _).
    rewrite Hargs in Ha. injection Ha as <- <-.
    rewrite Hopen in Ho. injection Ho as <-.
    rewrite Hdec in Hd. injection Hd as <-.
    fold frameCount in Hal. rewrite Halloc in Hal. injection Hal as <-.
    rewrite Himg.
    destruct (reachable_newFrames _ _ _ s Hsome0 (ex_intro _ schedule Hr))
      as [Hlen Hs].
    split; [by rewrite Hlen|done].
  - intros Ht [colors Hparse] [out Hout] Hdecoded.
    destruct (main_oneAfterTheOther fl w colors input output file img out)
      as (g & fpt & He & _ & _ & Hlog); try done.
    rewrite Hfc. eauto.
Qed.

(** C5 fails as it is stated: three frames and a loop count of
    6148914691236517206 make [3 * loopCount = 2 ^ 64 + 2], which the
    64-bit [frameCount] holds as 2. The program then writes an animation
    of two frames. *)
Lemma frameCount_overflow :
  let img := Sample.animation [Sample.frame0; Sample.frame1; Sample.frame2] in
  let fl := Sample.flags 1 "" Sample.wrapping in
  let r := @main Sample.lib fl (Sample.world img)
             (oneAfterTheOther 1 2) in
  1 <= loopCount fl /\
  frameCountOf img (loopCount fl) = 2 /\
  frameCountOf img (loopCount fl) <> len (Image img) * loopCount fl /\
  status r = Returned /\
  exists out g, encoded r = Some (out, g) /\ len (Image g) = 2.
Proof.
  intros img fl r. split; [by vm_compute|]. split; [by vm_compute|].
  split; [by vm_compute|]. split; [by vm_compute|].
  eexists _, _. split; [vm_compute; reflexivity|]. reflexivity.
Qed.

Lemma frameCount_lengths_witness :
  let img := Sample.animation [Sample.frame0; Sample.frame1] in
  let fl := Sample.flags 2 "ff0000,0000ff" 3 in
  let w := Sample.world img in
  positionalArgs fl = ["in.gif"; "out.gif"] /\
  os_Open w "in.gif" = inl "in.gif" /\
  gif_DecodeAll w "in.gif" = inl img /\
  1 <= loopCount fl /\
  len (Image img) * loopCount fl <= GoInt.maxInt /\
  frameCountOf img (loopCount fl) = 6 /\
  (forall schedule out g,
     encoded (@main Sample.lib fl w schedule) = Some (out, g) ->
     len (Image g) = 6 /\ Forall is_Some (Image g)).
Proof.
  intros img fl w.
  assert (H1 : positionalArgs fl = ["in.gif"; "out.gif"]) by reflexivity.
  assert (H2 : os_Open w "in.gif" = inl "in.gif") by reflexivity.
  assert (H3 : gif_DecodeAll w "in.gif" = inl img) by reflexivity.
  assert (H4 : 1 <= loopCount fl) by (vm_compute; discriminate).
  assert (H5 : len (Image img) * loopCount fl <= GoInt.maxInt)
    by (vm_compute; discriminate).
  destruct (@frameCount_lengths Sample.lib fl w "in.gif" "out.gif" "in.gif"
              img H1 H2 H3 H4 H5) as (Hfc & _ & _ & Hmain & _).
  split; [exact H1|]. split; [exact H2|]. split; [exact H3|].
  split; [exact H4|]. split; [exact H5|]. split; [reflexivity|].
  exact Hmain.
Defined.

(** ** Delays and disposal codes *)

(** C8, as the code has it. In the animation handed to the encoder, when
    the product of the number of source frames and the loop count fits an
    [int]: the delays and the disposal codes each have
    [originalFrameCount * loopCount] entries, entry [i] being the old
    entry [i mod len(old)]; the background index is 0 and the colour
    model of the configuration is nil. With a decoded animation and the
    goroutines run one after the other, the program does get to the
    encoder. *)
Theorem metadata_cycled `{ColorLib} (fl : Flags) (w : World)
    (input output : string) (file : File) (img : GIF) :
  positionalArgs fl = [input; output] ->
  os_Open w input = inl file ->
  gif_DecodeAll w file = inl img ->
  len (Image img) * loopCount fl <= GoInt.maxInt ->
  let frameCount := len (Image img) * loopCount fl in
  (forall schedule out g,
     encoded (main fl w schedule) = Some (out, g) ->
     len (Delay g) = frameCount /\
     len (Disposal g) = frameCount /\
     (forall i, 0 <= i < frameCount ->
        is_Some (idx (Delay g) i) /\
        idx (Delay g) i = idx (Delay img) (i mod len (Delay img))) /\
     (forall i, 0 <= i < frameCount ->
        is_Some (idx (Disposal g) i) /\
        idx (Disposal g) i = idx (Disposal img) (i mod len (Disposal img))) /\
     BackgroundIndex g = 0 /\
     ColorModel (GConfig g) = None) /\
  (1 <= threads fl <= GoInt.maxInt -> 1 <= loopCount fl ->
   (exists colors, parseGradientColors (gradientColors fl) = inl colors) ->
   (exists out, os_OpenFile w output = inl out) ->
   decoded img ->
   exists schedule out g, encoded (main fl w schedule) = Some (out, g)).
Proof.
  intros Hargs Hopen Hdec Hmax frameCount. split.
  - intros schedule out g He.
    destruct (main_encoded fl w schedule out g He)
      as (colors & input' & output' & file' & img' & nf & fpt & s & Hfacts).
    destruct Hfacts as (_ & Hl & _ & Ha & Ho & Hd & Hal & _ & Hr & _ & _ &
                        Himg & Hdelay & Hdisp & _ & Hcfg & Hbg & _).
    rewrite Hargs in Ha. injection Ha as <- <-.
    rewrite Hopen in Ho. injection Ho as <-.
    rewrite Hdec in Hd. injection Hd as <-.
    rewrite (frameCountOf_inRange img (loopCount fl) Hl Hmax) in Hal.
    fold frameCount in Hal.
    assert (Hpos : 0 <= frameCount) by (unfold frameCount, len; nia).
    rewrite allocFrames_spec in Hal by done. injection Hal as <-.
    assert (Hsome0 : Forall is_Some
                       (replicate (Z.to_nat frameCount) (Some newPaletted))).
    { apply Forall_replicate. eauto. }
    destruct (reachable_newFrames _ _ _ s Hsome0 (ex_intro _ schedule Hr))
      as [Hlen _].
    unfold len in Hlen. rewrite length_replicate in Hlen.
    apply cycled_spec in Hdelay as [HDl HD].
    apply cycled_spec in Hdisp as [HPl HP].
    assert (Hn : Z.of_nat (length (newFrames s)) = frameCount) by lia.
    rewrite Hn in HD, HP.
    split; [unfold len; lia|]. split; [unfold len; lia|].
    split; [exact HD|]. split; [exact HP|].
    split; [exact Hbg|]. by rewrite Hcfg.
  - intros Ht Hl [colors Hparse] [out Hout] Hdecoded.
    destruct (main_oneAfterTheOther fl w colors input output file img out)
      as (g & fpt & He & _); try done.
    eauto.
Qed.

(** C8 fails as it is stated, on the input on which C5 fails: the
    animation handed to the encoder has two delays and two disposal codes,
    not [3 * loopCount]. *)
Lemma metadata_overflow :
  let img := Sample.animation [Sample.frame0; Sample.frame1; Sample.frame2] in
  let fl := Sample.flags 1 "" Sample.wrapping in
  let r := @main Sample.lib fl (Sample.world img)
             (oneAfterTheOther 1 2) in
  exists out g,
    encoded r = Some (out, g) /\
    Delay g = [10; 20] /\ Disposal g = [1; 1] /\
    len (Delay g) <> len (Image img) * loopCount fl /\
    len (Disposal g) <> len (Image img) * loopCount fl.
Proof.
  intros img fl r. eexists _, _. split; [vm_compute; reflexivity|].
  repeat split; by vm_compute.
Qed.

Lemma metadata_cycled_witness :
  let img := Sample.animation [Sample.frame0; Sample.frame1] in
  let fl := Sample.flags 2 "ff0000,0000ff" 3 in
  let w := Sample.world img in
  positionalArgs fl = ["in.gif"; "out.gif"] /\
  os_Open w "in.gif" = inl "in.gif" /\
  gif_DecodeAll w "in.gif" = inl img /\
  len (Image img) * loopCount fl <= GoInt.maxInt /\
  exists out g,
    encoded (@main Sample.lib fl w (oneAfterTheOther 2 6))
    = Some (out, g) /\
    Delay g = [10; 20; 10; 20; 10; 20] /\
    len (Disposal g) = 6 /\
    BackgroundIndex g = 0 /\
    ColorModel (GConfig g) = None.
Proof.
  intros img fl w.
  assert (H1 : positionalArgs fl = ["in.gif"; "out.gif"]) by reflexivity.
  assert (H2 : os_Open w "in.gif" = inl "in.gif") by reflexivity.
  assert (H3 : gif_DecodeAll w "in.gif" = inl img) by reflexivity.
  assert (H5 : len (Image img) * loopCount fl <= GoInt.maxInt)
    by (vm_compute; discriminate).
  destruct (@metadata_cycled Sample.lib fl w "in.gif" "out.gif" "in.gif"
              img H1 H2 H3 H5) as [Hmeta _].
  split; [exact H1|]. split; [exact H2|]. split; [exact H3|].
  split; [exact H5|].
  assert (He : exists out g,
             encoded (@main Sample.lib fl w (oneAfterTheOther 2 6))
             = Some (out, g) /\
             Delay g = [10; 20; 10; 20; 10; 20]).
  { eexists _, _. split; vm_compute; reflexivity. }
  destruct He as (out & g & He & Hd).
  destruct (Hmeta _ out g He) as (_ & Hdisp & _ & _ & Hbg & Hcm).
  exists out, g. split; [exact He|]. split; [exact Hd|].
  split; [exact Hdisp|]. split; [exact Hbg|exact Hcm].
Defined.

(** ** The shared cursor *)

(** C1 at a failing input: two source frames, [threads = 2], and a
    schedule in which both goroutines pass the check of [frameIndex]
    before either increments it. The program ends normally; slot 0 has
    been prepared twice, once by each goroutine, slot 1 never, and the
    second frame of the output is the empty frame that [new] made. The
    slot a goroutine writes is read from the shared [frameIndex] at the
    moment of the call: no range is computed up front. *)
Theorem shared_cursor_double_write :
  let img := Sample.animation [Sample.frame0; Sample.frame1] in
  let r := @main Sample.lib (Sample.flags 2 "" 1) (Sample.world img)
             Sample.bothAtZero in
  status r = Returned /\
  prepared r = [ {| writer := 0; slot := 0; source := 0 |};
                 {| writer := 1; slot := 0; source := 0 |} ] /\
  exists out g,
    encoded r = Some (out, g) /\
    idx (Image g) 1 = Some (Some newPaletted).
Proof.
  intros img r. split; [by vm_compute|]. split; [by vm_compute|].
  eexists _, _. split; vm_compute; reflexivity.
Qed.

(** The state of that run at the race: after three steps each, both
    goroutines stand before the call of [prepareFrame] and [frameIndex] is
    still 0. *)
Example bothAtZero_race :
  let img := Sample.animation [Sample.frame0; Sample.frame1] in
  let sh := {| img_Image := Image img;
               overlayColors :=
                 @generate Sample.lib (newGradient rainbow true) 2;
               framesPerThread := 2 |} in
  exists s,
    @run Sample.lib sh (alone 0 3 ++ alone 1 3)
      (initial (replicate 2 (Some newPaletted)) 2) = Running s /\
    pc <$> workers s = [AtWork; AtWork] /\
    frameIndex s = 0 /\ normalizedFrameIndex s = 0.
Proof. eexists. split; [vm_compute; reflexivity|]. by vm_compute. Qed.

(** The same race on one source frame: the second goroutine indexes
    [newFrames] past its end and the program panics. *)
Example shared_cursor_panic :
  let img := Sample.animation [Sample.frame0] in
  let r := @main Sample.lib (Sample.flags 2 "" 1) (Sample.world img)
             Sample.pastTheEnd in
  status r = Crashed IndexOutOfRange.
Proof. vm_compute. reflexivity. Qed.

(** C2 at a failing input: two source frames, [threads = 2], and a
    schedule in which goroutine 1 runs a whole iteration between the two
    increments of goroutine 0. Slot 1 is prepared from source frame 0,
    not from source frame [1 mod 2]: the output holds the pixels of
    frame 0 there, and differs from the frame the slot is meant to
    hold. *)
Theorem stale_source_frame :
  let img := Sample.animation [Sample.frame0; Sample.frame1] in
  let fl := Sample.flags 2 "" 1 in
  let r := @main Sample.lib fl (Sample.world img) Sample.staleSource in
  let sh := {| img_Image := Image img;
               overlayColors :=
                 @generate Sample.lib (newGradient rainbow true) 2;
               framesPerThread := 2 |} in
  status r = Returned /\
  framesPerThreadOf img (threads fl) = Some 2 /\
  prepared r = [ {| writer := 0; slot := 0; source := 0 |};
                 {| writer := 1; slot := 1; source := 0 |} ] /\
  exists out g produced,
    encoded r = Some (out, g) /\
    idx (Image g) 1 = Some (Some produced) /\
    Pix produced = Pix Sample.frame0 /\
    Pix produced <> Pix Sample.frame1 /\
    Some produced <> @expectedFrame Sample.lib sh 1.
Proof.
  intros img fl r sh. split; [by vm_compute|]. split; [by vm_compute|].
  split; [by vm_compute|].
  eexists _, _, _. split; [vm_compute; reflexivity|].
  split; [vm_compute; reflexivity|].
  split; [reflexivity|]. split; by vm_compute.
Qed.

(** The state of that run when goroutine 1 makes its call: [frameIndex]
    is already 1, [normalizedFrameIndex] still 0. *)
Example staleSource_race :
  let img := Sample.animation [Sample.frame0; Sample.frame1] in
  let sh := {| img_Image := Image img;
               overlayColors :=
                 @generate Sample.lib (newGradient rainbow true) 2;
               framesPerThread := 2 |} in
  exists s,
    @run Sample.lib sh (alone 0 5 ++ alone 1 3)
      (initial (replicate 2 (Some newPaletted)) 2) = Running s /\
    pc <$> workers s = [AtIncNorm; AtWork] /\
    frameIndex s = 1 /\ normalizedFrameIndex s = 0.
Proof. eexists. split; [vm_compute; reflexivity|]. by vm_compute. Qed.

(** C7 at a failing input: the same command line and the same animation
    under two schedules. Both runs end normally and hand different
    animations to the encoder. *)
Theorem schedule_changes_output :
  let img := Sample.animation [Sample.frame0; Sample.frame1] in
  let fl := Sample.flags 2 "" 1 in
  let r1 := @main Sample.lib fl (Sample.world img)
              (oneAfterTheOther 2 2) in
  let r2 := @main Sample.lib fl (Sample.world img) Sample.staleSource in
  status r1 = Returned /\ status r2 = Returned /\
  encoded r1 <> encoded r2.
Proof.
  intros img fl r1 r2. split; [by vm_compute|]. split; [by vm_compute|].
  by vm_compute.
Qed.

(* ===================================================================== *)
(** * Further properties of the code *)
(* ===================================================================== *)

(** ** prepareFrame *)

(** On two images, the loop fails exactly when the source palette holds a
    nil interface value. *)
Lemma prepareFrame_None_iff `{ColorLib} (src dst : Paletted)
    (overlayColor : colorfulColor) :
  prepareFrame src dst overlayColor = None <-> ColorNil ∈ Palette src.
Proof.
  split.
  - intros Hnone. destruct (decide (ColorNil ∈ Palette src)) as [|Hnil];
      [done|].
    destruct (prepareFrame_total src dst overlayColor Hnil) as [? ?].
    congruence.
  - intros Hin.
    destruct (prepareFrame src dst overlayColor) as [dst'|] eqn:Hp; [|done].
    apply prepareFrame_Some in Hp as (outs & Hm & _).
    apply mapM_Some in Hm.
    apply list_elem_of_lookup in Hin as [i Hi].
    destruct (Forall2_lookup_l _ _ _ _ _ Hm Hi) as (out & _ & He).
    done.
Qed.

(** On distinct pointers, the function on pointers runs the loop of the
    function on images, over the image [src] points to. *)
Lemma prepareFrameAt_distinct `{ColorLib} (h : Heap) (s d : nat)
    (overlayColor : colorfulColor) :
  s <> d ->
  (prepareFrameAt h (Some s) (Some d) overlayColor = None <->
   prepareFrame (h s) (h d) overlayColor = None).
Proof.
  intros Hsd. unfold prepareFrameAt, prepareFrame, store. simpl.
  destruct (decide (s = d)) as [|_]; [done|].
  destruct (decide (d = d)) as [_|]; [|done]. simpl.
  destruct (paletteLoop _ _ _ _); split; intros; done.
Qed.

(** On one and the same image, the loop runs over the palette that has
    just been made: it fails at its first entry, if there is one. *)
Lemma prepareFrameAt_aliased `{ColorLib} (h : Heap) (s : nat)
    (overlayColor : colorfulColor) :
  prepareFrameAt h (Some s) (Some s) overlayColor = None <->
  Palette (h s) <> [].
Proof.
  unfold prepareFrameAt, store. simpl.
  destruct (decide (s = s)) as [_|]; [|done]. simpl.
  destruct (Palette (h s)) as [|pixel pixels]; simpl; split; intros; done.
Qed.

(** [prepareFrame] panics exactly when one of its two pointers is nil,
    or both point to the same image and its palette is not empty (the
    loop then runs over the nil values of the palette just made), or
    they point to distinct images and the source palette holds a nil
    interface value. The dereference of the pointers in the first
    statement and the call [pixel.RGBA()] are the only things in it that
    can fail. *)
Theorem prepareFrame_panics_iff `{ColorLib} (h : Heap)
    (src dst : option nat) (overlayColor : colorfulColor) :
  prepareFrameAt h src dst overlayColor = None <->
  src = None \/ dst = None \/
  exists s d,
    src = Some s /\ dst = Some d /\
    ((s = d /\ Palette (h s) <> []) \/
     (s <> d /\ ColorNil ∈ Palette (h s))).
Proof.
  destruct src as [s|]; [|split; [by left|done]].
  destruct dst as [d|]; [|split; [by right; left|done]].
  destruct (decide (s = d)) as [<-|Hsd].
  - rewrite prepareFrameAt_aliased. split.
    + intros Hne. right; right. exists s, s. eauto.
    + intros [|[|(s' & d' & [= <-] & [= <-] & [[_ Hne]|[Hne _]])]]; done.
  - rewrite (prepareFrameAt_distinct h s d overlayColor Hsd).
    rewrite prepareFrame_None_iff. split.
    + intros Hin. right; right. exists s, d. eauto.
    + intros [|[|(s' & d' & [= <-] & [= <-] & [[Heq _]|[_ Hin]])]]; done.
Qed.

(** The two sample frames at two addresses: a call on distinct pointers
    returns, a call with the same pointer twice panics. *)
Example prepareFrameAt_same_pointer :
  let h : Heap := fun p => if (p =? 0)%nat then Sample.frame0
                           else Sample.frame1 in
  let red := {| cR := 1; cG := 0; cB := 0 |} in
  (Palette <$> ((fun h' => h' 1%nat)
                <$> @prepareFrameAt Sample.lib h (Some 0%nat) (Some 1%nat)
                      red)
   = Some [ColorNRGBA 227 0 0 255; ColorRGBA 0 0 0 0]) /\
  @prepareFrameAt Sample.lib h (Some 0%nat) (Some 0%nat) red = None /\
  @prepareFrameAt Sample.lib h None (Some 1%nat) red = None.
Proof. vm_compute. done. Qed.

(** The palette [prepareFrame] leaves in [dst] holds no nil interface
    value: an output frame can be a source frame in turn. *)
Theorem prepareFrame_no_nil `{ColorLib} (src dst dst' : Paletted)
    (overlayColor : colorfulColor) :
  prepareFrame src dst overlayColor = Some dst' ->
  (ColorNil ∉ Palette dst') /\
  is_Some (prepareFrame dst' dst overlayColor).
Proof.
  intros Hp.
  assert (Hnil : ColorNil ∉ Palette dst').
  { apply prepareFrame_Some in Hp as (outs & Hm & ->). simpl.
    apply mapM_Some in Hm. intros Hin.
    apply list_elem_of_lookup in Hin as [i Hi].
    destruct (Forall2_lookup_r _ _ _ _ _ Hm Hi) as (pixel & _ & He).
    by apply prepareEntry_out_nonnil in He. }
  split; [exact Hnil|]. by apply prepareFrame_total.
Qed.

Lemma prepareFrame_no_nil_witness :
  exists dst',
    @prepareFrame Sample.lib Sample.frame0 newPaletted zeroColor = Some dst' /\
    (ColorNil ∉ Palette dst') /\
    is_Some (@prepareFrame Sample.lib dst' newPaletted zeroColor).
Proof.
  eexists. split; [vm_compute; reflexivity|].
  apply (@prepareFrame_no_nil Sample.lib Sample.frame0 newPaletted).
  vm_compute. reflexivity.
Defined.

(** A frame whose palette entries are all fully transparent comes out as
    the source frame itself, whatever the overlay colour and whatever
    [dst] held before. *)
Theorem prepareFrame_transparent_frame `{ColorLib} (src dst : Paletted)
    (overlayColor : colorfulColor) :
  Forall transparent (Palette src) ->
  prepareFrame src dst overlayColor = Some src.
Proof.
  intros Hall. apply prepareFrame_Some. exists (Palette src).
  split; [|by destruct src].
  apply mapM_Some. induction Hall as [|pixel pixels Hp _ IH];
    constructor; [|done].
  destruct Hp as (r & g & b & Hrgba). unfold prepareEntry.
  rewrite Hrgba. by destruct (MakeColor pixel).
Qed.

Lemma prepareFrame_transparent_frame_witness :
  let src := {| Pix := [0; 1]; Stride := 2; Rect := Sample.square;
                Palette := [ColorRGBA 0 0 0 0; ColorNRGBA 9 8 7 0] |} in
  Forall transparent (Palette src) /\
  @prepareFrame Sample.lib src Sample.frame1 zeroColor = Some src.
Proof.
  intros src.
  assert (Hall : Forall transparent (Palette src)).
  { repeat constructor; eexists _, _, _; vm_compute; reflexivity. }
  split; [exact Hall|].
  exact (@prepareFrame_transparent_frame Sample.lib src Sample.frame1
           zeroColor Hall).
Defined.

(** ** parseGradientColors *)

Lemma Split_length (s : string) : length (Split s) = S (commas s).
Proof.
  induction s as [|c s IH]; [done|]. simpl.
  destruct (Ascii.eqb c ","); simpl; [by rewrite IH|].
  destruct (Split s) as [|piece pieces]; simpl in *; lia.
Qed.

Lemma parseLoop_mapM (colorHexes : list string) :
  forall (i : nat) (colors : list colorfulColor),
    (i + length colorHexes <= length colors)%nat ->
    match parseLoop i colorHexes colors with
    | inl parsed =>
        exists values,
          mapM hexOf colorHexes = Some values /\
          parsed = take i colors ++ values
                   ++ drop (i + length colorHexes) colors
    | inr err =>
        exists before hex after,
          colorHexes = before ++ hex :: after /\
          is_Some (mapM hexOf before) /\
          hexOf hex = None /\
          err = "Invalid color: " +:+ hex
    end.
Proof.
  induction colorHexes as [|hex rest IH]; intros i colors Hlen;
    cbn [parseLoop].
  - exists []. split; [done|]. simpl. by rewrite Nat.add_0_r, take_drop.
  - destruct (Hex ("#" +:+ hex)) as [color|e] eqn:Hh.
    + assert (Hof : hexOf hex = Some color) by (unfold hexOf; by rewrite Hh).
      specialize (IH (S i) (<[i:=color]> colors)).
      rewrite length_insert in IH. simpl in Hlen.
      specialize (IH ltac:(lia)).
      destruct (parseLoop _ _ _) as [parsed|err].
      * destruct IH as (values & Hm & ->). exists (color :: values). split.
        { apply mapM_Some. constructor; [done|by apply mapM_Some]. }
        rewrite (take_S_r _ _ color) by (apply list_lookup_insert_eq; lia).
        rewrite take_insert_ge by lia. rewrite drop_insert_lt by lia.
        cbn [length]. replace (S i + length rest)%nat
          with (i + S (length rest))%nat by lia.
        by rewrite <- app_assoc.
      * destruct IH as (before & h & after & -> & Hb & Hn & ->).
        exists (hex :: before), h, after. split; [done|].
        split; [|done]. destruct Hb as [vs Hvs]. exists (color :: vs).
        apply mapM_Some. constructor; [done|by apply mapM_Some].
    + exists [], hex, rest. split; [done|]. split; [by exists []|].
      split; [unfold hexOf; by rewrite Hh|done].
Qed.

(** On success [parseGradientColors] returns at least one colour: six for
    the empty string, and otherwise one more than the string has
    commas. *)
Theorem parseGradientColors_count (gradientColors : string)
    (colors : list colorfulColor) :
  parseGradientColors gradientColors = inl colors ->
  colors <> [] /\
  length colors
  = if decide (gradientColors = EmptyString) then 6%nat
    else S (commas gradientColors).
Proof.
  unfold parseGradientColors.
  destruct gradientColors as [|c rest].
  - intros [= <-]. done.
  - change (negb (String.length (String c rest) =? 0)%nat) with true.
    cbv iota zeta. intros Hp.
    pose proof (parseLoop_mapM (Split (String c rest)) 0
      (replicate (length (Split (String c rest))) zeroColor)) as Hm.
    rewrite length_replicate in Hm. specialize (Hm ltac:(lia)).
    rewrite Hp in Hm. destruct Hm as (values & Hv & ->).
    apply mapM_Some, Forall2_length in Hv.
    rewrite drop_ge by (rewrite length_replicate; lia).
    rewrite app_nil_r. simpl take. simpl app.
    assert (Hlen : length values = S (commas (String c rest)))
      by (rewrite <- Hv; apply Split_length).
    split; [intros ->; simpl in Hlen; lia|].
    by destruct (decide (String c rest = EmptyString)).
Qed.

Lemma parseGradientColors_count_witness :
  parseGradientColors "ff0000,00ff00,0000ff"
  = inl [ {| cR := 1; cG := 0; cB := 0 |}; {| cR := 0; cG := 1; cB := 0 |};
          {| cR := 0; cG := 0; cB := 1 |} ]%float /\
  length [ {| cR := 1; cG := 0; cB := 0 |}; {| cR := 0; cG := 1; cB := 0 |};
           {| cR := 0; cG := 0; cB := 1 |} ]%float = 3%nat.
Proof.
  assert (Hp : parseGradientColors "ff0000,00ff00,0000ff"
    = inl [ {| cR := 1; cG := 0; cB := 0 |}; {| cR := 0; cG := 1; cB := 0 |};
            {| cR := 0; cG := 0; cB := 1 |} ]%float)
    by (vm_compute; reflexivity).
  split; [exact Hp|].
  exact (proj2 (parseGradientColors_count _ _ Hp)).
Defined.

(** For a gradient string that is not empty, [parseGradientColors]
    succeeds exactly when every piece between the commas has a colour,
    and then returns the colours of the pieces in their order. *)
Theorem parseGradientColors_in_order (c : ascii) (rest : string)
    (colors : list colorfulColor) :
  parseGradientColors (String c rest) = inl colors <->
  mapM hexOf (Split (String c rest)) = Some colors.
Proof.
  unfold parseGradientColors.
  change (negb (String.length (String c rest) =? 0)%nat) with true.
  cbv iota zeta.
  pose proof (parseLoop_mapM (Split (String c rest)) 0
    (replicate (length (Split (String c rest))) zeroColor)) as Hm.
  rewrite length_replicate in Hm. specialize (Hm ltac:(lia)).
  destruct (parseLoop _ _ _) as [parsed|err].
  - destruct Hm as (values & Hv & ->).
    rewrite drop_ge by (rewrite length_replicate; lia).
    rewrite app_nil_r. simpl take. simpl app. rewrite Hv.
    split; intros [= ->]; done.
  - destruct Hm as (before & hex & after & Hs & _ & Hn & _).
    split; [done|]. intros Hv. rewrite Hs in Hv.
    apply mapM_Some in Hv.
    apply Forall2_app_inv_l in Hv as (? & ? & _ & Hv & _).
    inversion Hv; subst. congruence.
Qed.

(** When [parseGradientColors] fails, the error names the first piece
    that has no colour: every piece before it has one. *)
Theorem parseGradientColors_first_invalid (gradientColors : string)
    (err : error) :
  parseGradientColors gradientColors = inr err ->
  exists before hex after,
    Split gradientColors = before ++ hex :: after /\
    is_Some (mapM hexOf before) /\
    hexOf hex = None /\
    err = "Invalid color: " +:+ hex.
Proof.
  unfold parseGradientColors.
  destruct gradientColors as [|c rest]; [done|].
  change (negb (String.length (String c rest) =? 0)%nat) with true.
  cbv iota zeta. intros Hp.
  pose proof (parseLoop_mapM (Split (String c rest)) 0
    (replicate (length (Split (String c rest))) zeroColor)) as Hm.
  rewrite length_replicate in Hm. specialize (Hm ltac:(lia)).
  by rewrite Hp in Hm.
Qed.

Lemma parseGradientColors_first_invalid_witness :
  parseGradientColors "ff0000,zz,12" = inr "Invalid color: zz" /\
  exists before hex after,
    Split "ff0000,zz,12" = before ++ hex :: after /\
    is_Some (mapM hexOf before) /\
    hexOf hex = None /\
    "Invalid color: zz" = "Invalid color: " +:+ hex.
Proof.
  assert (Hp : parseGradientColors "ff0000,zz,12" = inr "Invalid color: zz")
    by (vm_compute; reflexivity).
  split; [exact Hp|].
  exact (parseGradientColors_first_invalid _ _ Hp).
Defined.

(** ** main: what is printed, what is kept, what panics *)

(** The checks of [main] are made in a fixed order and the first one that
    fails decides the line printed: thread count, gradient, loop count,
    positional arguments, opening the input, decoding it. *)
Theorem main_first_failure `{ColorLib} (fl : Flags) (w : World)
    (schedule : list nat) :
  let r := main fl w schedule in
  (threads fl <= 0 -> stdout r = ["Thread count must be at least 1"]) /\
  (0 < threads fl ->
   forall err, parseGradientColors (gradientColors fl) = inr err ->
   stdout r = [err]) /\
  (0 < threads fl ->
   forall colors, parseGradientColors (gradientColors fl) = inl colors ->
   (loopCount fl < 1 -> stdout r = ["Loop count must be at least 1"]) /\
   (1 <= loopCount fl ->
    (length (positionalArgs fl) <> 2%nat ->
     stdout r = ["Expected two positional arguments: input and output"]) /\
    (forall input output, positionalArgs fl = [input; output] ->
     (forall err, os_Open w input = inr err ->
      stdout r = ["Error opening file:  " +:+ err]) /\
     (forall file err, os_Open w input = inl file ->
      gif_DecodeAll w file = inr err ->
      stdout r = ["Error decoding:  " +:+ err])))).
Proof.
  intros r. subst r. unfold main.
  split; [|split].
  - intros Ht. by destruct (Z.leb_spec (threads fl) 0); [|lia].
  - intros Ht err Hp. destruct (Z.leb_spec (threads fl) 0); [lia|].
    by rewrite Hp.
  - intros Ht colors Hp. destruct (Z.leb_spec (threads fl) 0); [lia|].
    rewrite Hp. split.
    + intros Hl. by destruct (Z.ltb_spec (loopCount fl) 1); [|lia].
    + intros Hl. destruct (Z.ltb_spec (loopCount fl) 1); [lia|]. split.
      * intros Hlen.
        by destruct (positionalArgs fl) as [|input [|output [|]]].
      * intros input output ->. split.
        { intros err ->. done. }
        { intros file err -> ->. done. }
Qed.

(** The animation handed to the encoder keeps the loop count and the
    size of the decoded one: the flag [loop_count] repeats the frames and
    leaves the field [LoopCount] of the GIF alone. *)
Theorem main_keeps_loop_and_size `{ColorLib} (fl : Flags) (w : World)
    (schedule : list nat) (out : File) (g : GIF) :
  encoded (main fl w schedule) = Some (out, g) ->
  exists input output file img,
    positionalArgs fl = [input; output] /\
    os_Open w input = inl file /\
    gif_DecodeAll w file = inl img /\
    LoopCount g = LoopCount img /\
    Width (GConfig g) = Width (GConfig img) /\
    Height (GConfig g) = Height (GConfig img).
Proof.
  intros He.
  destruct (main_encoded fl w schedule out g He)
    as (colors & input & output & file & img & nf & fpt & s & Hfacts).
  destruct Hfacts as (_ & _ & _ & Ha & Ho & Hd & _ & _ & _ & _ & _ & _ & _ &
                      _ & Hlc & Hcfg & _).
  exists input, output, file, img. rewrite Hcfg. done.
Qed.

Lemma main_keeps_loop_and_size_witness :
  let img := Sample.animation [Sample.frame0] in
  let r := @main Sample.lib (Sample.flags 1 "" 5) (Sample.world img)
             (oneAfterTheOther 1 5) in
  exists out g,
    encoded r = Some (out, g) /\
    length (Image g) = 5%nat /\
    exists input output file img',
      positionalArgs (Sample.flags 1 "" 5) = [input; output] /\
      os_Open (Sample.world img) input = inl file /\
      gif_DecodeAll (Sample.world img) file = inl img' /\
      LoopCount g = LoopCount img' /\
      Width (GConfig g) = Width (GConfig img') /\
      Height (GConfig g) = Height (GConfig img').
Proof.
  intros img r.
  assert (He : exists out g, encoded r = Some (out, g) /\
                             length (Image g) = 5%nat).
  { eexists _, _. split; vm_compute; reflexivity. }
  destruct He as (out & g & He & Hlen).
  exists out, g. split; [exact He|]. split; [exact Hlen|].
  exact (@main_keeps_loop_and_size Sample.lib _ _ _ out g He).
Defined.

Lemma cycled_same_length (old new : list Z) :
  cycled old (length old) = inl new -> new = old.
Proof.
  intros Hc. apply cycled_spec in Hc as [Hlen Hidx].
  apply list_eq. intros i.
  destruct (decide (i < length old)%nat) as [Hi|Hi].
  - destruct (Hidx (Z.of_nat i) ltac:(lia)) as [_ He].
    rewrite Z.mod_small in He by (unfold len; lia).
    by rewrite !idx_lookup in He.
  - rewrite !lookup_ge_None_2 by lia. done.
Qed.

(** With [loop_count = 1] the delays and the disposal codes handed to
    the encoder are those of the decoded animation, whatever the
    schedule of the goroutines. *)
Theorem main_single_loop_metadata `{ColorLib} (fl : Flags) (w : World)
    (schedule : list nat) (input output : string) (file out : File)
    (img g : GIF) :
  positionalArgs fl = [input; output] ->
  os_Open w input = inl file ->
  gif_DecodeAll w file = inl img ->
  loopCount fl = 1 ->
  len (Image img) <= GoInt.maxInt ->
  len (Delay img) = len (Image img) ->
  len (Disposal img) = len (Image img) ->
  encoded (main fl w schedule) = Some (out, g) ->
  Delay g = Delay img /\ Disposal g = Disposal img /\
  length (Image g) = length (Image img).
Proof.
  intros Hargs Hopen Hdec Hone Hmax Hdl Hdp He.
  destruct (main_encoded fl w schedule out g He)
    as (colors & input' & output' & file' & img' & nf & fpt & s & Hfacts).
  destruct Hfacts as (_ & Hl & _ & Ha & Ho & Hd & Hal & _ & Hr & _ & _ &
                      Himg & Hdelay & Hdisp & _).
  rewrite Hargs in Ha. injection Ha as <- <-.
  rewrite Hopen in Ho. injection Ho as <-.
  rewrite Hdec in Hd. injection Hd as <-.
  rewrite (frameCountOf_inRange img (loopCount fl)) in Hal by lia.
  rewrite Hone, Z.mul_1_r in Hal.
  rewrite allocFrames_spec in Hal by (unfold len; lia).
  injection Hal as <-.
  assert (Hsome0 : Forall is_Some
            (replicate (Z.to_nat (len (Image img))) (Some newPaletted))).
  { apply Forall_replicate. eauto. }
  destruct (reachable_newFrames _ _ _ s Hsome0 (ex_intro _ schedule Hr))
    as [Hlen _].
  unfold len in Hlen, Hdl, Hdp. rewrite length_replicate in Hlen.
  assert (Hn : length (newFrames s) = length (Image img)) by lia.
  rewrite Hn in Hdelay, Hdisp.
  replace (length (Image img)) with (length (Delay img)) in Hdelay by lia.
  replace (length (Image img)) with (length (Disposal img)) in Hdisp by lia.
  apply cycled_same_length in Hdelay, Hdisp.
  by rewrite Himg.
Qed.

Lemma main_single_loop_metadata_witness :
  let img := Sample.animation [Sample.frame0; Sample.frame1] in
  let fl := Sample.flags 2 "" 1 in
  let w := Sample.world img in
  exists out g,
    encoded (@main Sample.lib fl w Sample.staleSource) = Some (out, g) /\
    Delay g = [10; 20] /\ Disposal g = [1; 1] /\
    length (Image g) = 2%nat.
Proof.
  intros img fl w.
  assert (He : exists out g,
            encoded (@main Sample.lib fl w Sample.staleSource)
            = Some (out, g)).
  { eexists _, _. vm_compute. reflexivity. }
  destruct He as (out & g & He). exists out, g. split; [exact He|].
  apply (@main_single_loop_metadata Sample.lib fl w Sample.staleSource
           "in.gif" "out.gif" "in.gif" out img g);
    try reflexivity; [vm_compute; discriminate|exact He].
Defined.

(** When [len(img.Image) * loopCount] wraps to a negative [int], [make]
    panics: the program stops before a goroutine is started, whatever the
    schedule, and prints nothing. *)
Theorem main_negative_frameCount `{ColorLib} (fl : Flags) (w : World)
    (schedule : list nat) (colors : list colorfulColor)
    (input output : string) (file : File) (img : GIF) :
  0 < threads fl ->
  parseGradientColors (gradientColors fl) = inl colors ->
  1 <= loopCount fl ->
  positionalArgs fl = [input; output] ->
  os_Open w input = inl file ->
  gif_DecodeAll w file = inl img ->
  frameCountOf img (loopCount fl) < 0 ->
  main fl w schedule = crash MakeSliceLenOutOfRange [].
Proof.
  intros Ht Hp Hl Ha Ho Hd Hneg. unfold main, process.
  destruct (Z.leb_spec (threads fl) 0); [lia|]. rewrite Hp.
  destruct (Z.ltb_spec (loopCount fl) 1); [lia|].
  rewrite Ha, Ho, Hd. by rewrite allocFrames_negative.
Qed.

Lemma main_negative_frameCount_witness :
  let img := Sample.animation [Sample.frame0; Sample.frame1] in
  let fl := Sample.flags 1 "" (2 ^ 62) in
  frameCountOf img (loopCount fl) = - 2 ^ 63 /\
  @main Sample.lib fl (Sample.world img) [0%nat; 0%nat]
  = {| stdout := []; status := Crashed MakeSliceLenOutOfRange;
       prepared := []; encoded := None |}.
Proof.
  intros img fl. split; [vm_compute; reflexivity|].
  apply (@main_negative_frameCount Sample.lib fl (Sample.world img) _
           rainbow "in.gif" "out.gif" "in.gif" img);
    try reflexivity; vm_compute; discriminate.
Defined.

(** The goroutines run one after the other, for any number of them: the
    program gets to the encoder; goroutine 0 has made every call of
    [prepareFrame], one per slot and in order; and slot [i] holds what
    [prepareFrame] makes of source frame [i mod len(img.Image)] and
    overlay colour [overlayColors[i]], with the pixels of that source
    frame. *)
Theorem main_oneAfterTheOther_frames `{ColorLib} (fl : Flags) (w : World)
    (colors : list colorfulColor) (input output : string)
    (file out : File) (img : GIF) :
  1 <= threads fl <= GoInt.maxInt -> 1 <= loopCount fl ->
  parseGradientColors (gradientColors fl) = inl colors ->
  positionalArgs fl = [input; output] ->
  os_Open w input = inl file ->
  gif_DecodeAll w file = inl img ->
  decoded img ->
  len (Image img) * loopCount fl <= GoInt.maxInt ->
  os_OpenFile w output = inl out ->
  let frameCount := len (Image img) * loopCount fl in
  let overlay := generate (newGradient colors true) frameCount in
  let r := main fl w (oneAfterTheOther (Z.to_nat (threads fl))
                        (Z.to_nat frameCount)) in
  exists g,
    encoded r = Some (out, g) /\
    prepared r = writesBy 0 (len (Image img)) (Z.to_nat frameCount) /\
    forall i, 0 <= i < frameCount ->
      exists src overlayColor frame,
        idx (Image img) (i mod len (Image img)) = Some (Some src) /\
        idx overlay i = Some overlayColor /\
        prepareFrame src newPaletted overlayColor = Some frame /\
        idx (Image g) i = Some (Some frame) /\
        Pix frame = Pix src.
Proof.
  intros Ht Hl Hp Ha Ho Hd Hdec Hmax Hout frameCount overlay r.
  destruct (main_oneAfterTheOther fl w colors input output file img out
              Ht Hl Hp Ha Ho Hd Hdec Hmax Hout)
    as (g & fpt & He & Hfpt & Himg & Hlog).
  exists g. split; [exact He|]. split; [exact Hlog|].
  intros i Hi. destruct Hdec as (Hn & Hwf & _ & _).
  destruct (idx_is_Some (Image img) (i mod len (Image img)))
    as [fsrc Hsrc]; [apply Z.mod_pos_bound; lia|].
  assert (Hin : fsrc ∈ Image img).
  { unfold idx in Hsrc. destruct (_ <? _); [done|].
    by eapply list_elem_of_lookup_2. }
  eapply Forall_forall in Hin; [|exact Hwf].
  destruct Hin as (src & -> & Hnil).
  destruct (idx_is_Some overlay i) as [o Hov].
  { subst overlay. rewrite generate_length by (subst frameCount; lia).
    done. }
  destruct (prepareFrame_total src newPaletted o Hnil) as [frame Hf].
  exists src, o, frame. split; [done|]. split; [done|]. split; [done|].
  split.
  - rewrite Himg. replace i with (Z.of_nat (Z.to_nat i)) at 1 by lia.
    rewrite idx_lookup, list_lookup_fmap, lookup_seq_lt
      by (subst frameCount; lia).
    simpl. rewrite Z2Nat.id by lia. do 2 f_equal.
    unfold expectedFrame, sharedOf. cbn [img_Image overlayColors].
    rewrite Hsrc.
    rewrite (frameCountOf_inRange img (loopCount fl) Hl Hmax).
    fold frameCount. fold overlay. by rewrite Hov.
  - apply prepareFrame_Some in Hf as (outs & _ & ->). done.
Qed.

Lemma main_oneAfterTheOther_frames_witness :
  let img := Sample.animation [Sample.frame0; Sample.frame1] in
  let fl := Sample.flags 3 "ff0000,0000ff" 2 in
  let r := @main Sample.lib fl (Sample.world img) (oneAfterTheOther 3 4) in
  decoded img /\
  exists g,
    encoded r = Some ("out.gif", g) /\
    prepared r = writesBy 0 2 4 /\
    Pix <$> (idx (Image g) 3 ≫= id) = Some (Pix Sample.frame1).
Proof.
  intros img fl r.
  assert (Hdec : decoded img).
  { split; [vm_compute; split; [discriminate|reflexivity]|].
    split; [|split; reflexivity].
    repeat constructor; eexists; (split; [reflexivity|]);
      intros Hin;
      repeat (apply elem_of_cons in Hin as [Hin|Hin]; [done|]);
      by apply elem_of_nil in Hin. }
  split; [exact Hdec|].
  destruct (@main_oneAfterTheOther_frames Sample.lib fl (Sample.world img)
              [ {| cR := 1; cG := 0; cB := 0 |};
                {| cR := 0; cG := 0; cB := 1 |} ]%float
              "in.gif" "out.gif" "in.gif" "out.gif" img)
    as (g & He & Hlog & Hslots); try reflexivity; try exact Hdec.
  - vm_compute. split; discriminate.
  - vm_compute. discriminate.
  - vm_compute. discriminate.
  - exists g. split; [exact He|]. split; [exact Hlog|].
    destruct (Hslots 3) as (src & o & frame & Hsrc & _ & _ & Hg & Hpix).
    { vm_compute. split; [discriminate|reflexivity]. }
    rewrite Hg. simpl. rewrite Hpix.
    vm_compute in Hsrc. injection Hsrc as <-. reflexivity.
Defined.

(** ** The goroutines under every schedule *)

Lemma countPC_le f ws : (countPC f ws <= length ws)%nat.
Proof. induction ws as [|w ws IH]; simpl; [lia|]. destruct (f _); lia. Qed.

Lemma countPC_insert f ws t w w' :
  ws !! t = Some w ->
  Z.of_nat (countPC f (<[t:=w']> ws))
  = Z.of_nat (countPC f ws) - Z.b2z (f (pc w)) + Z.b2z (f (pc w')).
Proof.
  revert t. induction ws as [|v ws IH]; intros [|t] Hw; simpl in *;
    try done.
  - injection Hw as ->. destruct (f (pc w)), (f (pc w')); simpl; lia.
  - specialize (IH t Hw). destruct (f (pc v)); lia.
Qed.

Lemma countPC_lt f ws t w :
  ws !! t = Some w -> f (pc w) = false ->
  (countPC f ws < length ws)%nat.
Proof.
  revert t. induction ws as [|v ws IH]; intros [|t] Hw Hf; simpl in *;
    try done.
  - injection Hw as ->. rewrite Hf. pose proof (countPC_le f ws). lia.
  - specialize (IH t Hw Hf). destruct (f (pc v)); lia.
Qed.

Lemma countPC_pos f ws t w :
  ws !! t = Some w -> f (pc w) = true -> (0 < countPC f ws)%nat.
Proof.
  revert t. induction ws as [|v ws IH]; intros [|t] Hw Hf; simpl in *;
    try done.
  - injection Hw as ->. rewrite Hf. lia.
  - specialize (IH t Hw Hf). lia.
Qed.

Lemma countPC_all f ws :
  countPC f ws = length ws -> Forall (fun w => f (pc w) = true) ws.
Proof.
  induction ws as [|w ws IH]; simpl; intros Hc; [constructor|].
  pose proof (countPC_le f ws).
  destruct (f (pc w)) eqn:Hf; [|lia].
  constructor; [done|]. apply IH. lia.
Qed.

Lemma countPC_mono f g ws :
  (forall p, f p = true -> g p = true) ->
  (countPC f ws <= countPC g ws)%nat.
Proof.
  intros Hfg. induction ws as [|w ws IH]; simpl; [lia|].
  destruct (f (pc w)) eqn:Hf; [rewrite (Hfg _ Hf); lia|].
  destruct (g (pc w)); lia.
Qed.

Lemma countPC_none f ws :
  Forall (fun w => f (pc w) = false) ws -> countPC f ws = 0%nat.
Proof.
  induction 1 as [|w ws Hw _ IH]; simpl; [done|]. by rewrite Hw, IH.
Qed.

Section Counting.
Context `{ColorLib}.
Variable sh : Shared.
Variables T F : Z.
Hypothesis Hquota : 1 <= framesPerThread sh.
Hypothesis Hthreads : 1 <= T.
Hypothesis Hfits : F + T <= GoInt.maxInt.

Lemma work_fields t s s' :
  work sh t s = inl s' ->
  frameIndex s' = frameIndex s /\
  workers s' = workers s /\
  barrier s' = barrier s /\
  length (newFrames s') = length (newFrames s) /\
  log s' = log s ++ [{| writer := t; slot := frameIndex s;
                        source := normalizedFrameIndex s |}].
Proof.
  unfold work. intros Hw. repeat (case_match; try done). simplify_eq.
  simpl. by rewrite length_insert.
Qed.

Lemma counted_initial frames :
  Z.of_nat (length frames) = F -> T = Z.of_nat (Z.to_nat T) ->
  counted T F (initial frames T).
Proof.
  intros HF HT. unfold counted, initial. simpl.
  assert (Hnone : forall f, f AtLoop = false ->
            countPC f (spawn T) = 0%nat).
  { intros f Hf. apply countPC_none. unfold spawn.
    apply Forall_fmap, Forall_forall. done. }
  rewrite !Hnone by done.
  split; [unfold spawn; rewrite length_map, length_seq; lia|].
  split; [done|].
  split; [unfold spawn; apply Forall_fmap, Forall_forall; done|].
  repeat split; lia.
Qed.

Lemma step_counted t s s' :
  counted T F s -> step sh t s = Running s' -> counted T F s'.
Proof.
  intros (HT & HF & Hproc & Hbar & Hfi & Hlog & Hflight & Hleft) Hs.
  pose proof (step_preserved sh t s s' Hs) as (PT & PF & _ & Pproc).
  unfold step in Hs.
  destruct (workers s !! t) as [w|] eqn:Hw; [|done].
  assert (Hp0 : processed w = 0)
    by (eapply Forall_lookup_1 in Hproc; [|exact Hw]; done).
  pose proof (countPC_le inFlight (workers s)) as Lc.
  pose proof (countPC_mono called inFlight (workers s)
                ltac:(by intros []; simpl)) as Lac.
  assert (Hcount : forall f p s1, workers s1 = workers s ->
            Z.of_nat (countPC f (workers (setPC t w p s1)))
            = Z.of_nat (countPC f (workers s)) - Z.b2z (f (pc w))
              + Z.b2z (f p)).
  { intros f p s1 Hws. unfold setPC. simpl. rewrite Hws.
    by rewrite (countPC_insert f _ t w). }
  unfold counted. rewrite PT, PF.
  split; [done|]. split; [done|]. split; [by apply Pproc|].
  destruct (pc w) eqn:Epc.
  - (* AtLoop *)
    destruct (Z.ltb_spec (processed w) (framesPerThread sh)); [|lia].
    injection Hs as <-. rewrite !Hcount by done. rewrite ?Epc.
    cbn [setPC barrier frameIndex log]. simpl Z.b2z. lia.
  - (* AtCheck *)
    destruct (Z.geb_spec (frameIndex s) (len (newFrames s))) as [Hge|Hlt];
      injection Hs as <-; rewrite !Hcount by done; rewrite ?Epc;
      cbn [setPC barrier frameIndex log]; simpl Z.b2z; unfold len in *.
    + repeat split; lia.
    + pose proof (countPC_lt inFlight _ t w Hw ltac:(by rewrite Epc)).
      repeat split; lia.
  - (* AtNormalize *)
    injection Hs as <-.
    destruct (normalize_fields sh s) as (N1 & N2 & N3 & N4 & N5).
    rewrite !Hcount by done. rewrite ?Epc.
    cbn [setPC barrier frameIndex log]. rewrite N1, N4, N5.
    simpl Z.b2z. lia.
  - (* AtWork *)
    destruct (work sh t s) as [s1|p] eqn:Hwork; [|done].
    injection Hs as <-.
    apply work_fields in Hwork as (W1 & W2 & W3 & W4 & W5).
    rewrite !Hcount by done. rewrite ?Epc.
    cbn [setPC barrier frameIndex log]. rewrite W1, W3, W5, length_app.
    simpl Z.b2z. simpl length. lia.
  - (* AtIncFrame *)
    injection Hs as <-. rewrite !Hcount by done. rewrite ?Epc.
    cbn [setPC set_frameIndex barrier frameIndex log]. simpl Z.b2z.
    pose proof (countPC_pos inFlight _ t w Hw ltac:(by rewrite Epc)).
    pose proof (countPC_pos called _ t w Hw ltac:(by rewrite Epc)).
    unfold GoInt.add. rewrite wrap_inRange
      by (unfold GoInt.inRange, GoInt.minInt, GoInt.maxInt, GoInt.bits in *;
          lia).
    repeat split; lia.
  - (* AtIncNorm *)
    injection Hs as <-. rewrite !Hcount by done. rewrite ?Epc.
    cbn [setPC set_normalizedFrameIndex barrier frameIndex log].
    simpl Z.b2z. lia.
  - (* AtSend *)
    injection Hs as <-. rewrite !Hcount by done. rewrite ?Epc.
    cbn [setPC set_barrier barrier frameIndex log]. simpl Z.b2z.
    pose proof (countPC_lt finished _ t w Hw ltac:(by rewrite Epc)).
    unfold GoInt.add. rewrite wrap_inRange
      by (unfold GoInt.inRange, GoInt.minInt, GoInt.maxInt, GoInt.bits in *;
          lia).
    repeat split; lia.
  - done.
Qed.

Lemma run_counted schedule :
  forall s s', counted T F s -> run sh schedule s = Running s' ->
               counted T F s'.
Proof.
  induction schedule as [|t schedule IH]; intros s s' Hc Hr; simpl in Hr.
  - by injection Hr as <-.
  - destruct (step sh t s) as [s1| |] eqn:Hs; try done.
    eapply IH; [|exact Hr]. by eapply step_counted.
Qed.

End Counting.

Lemma reachable_counted `{ColorLib} (sh : Shared)
    (frames : list (option Paletted)) (threads : Z) (s : State) :
  1 <= framesPerThread sh -> 1 <= threads ->
  len frames + threads <= GoInt.maxInt ->
  reachable sh (initial frames threads) s ->
  counted threads (len frames) s.
Proof.
  intros Hq Ht Hfits [schedule Hr].
  eapply (run_counted sh threads (len frames) Hq Hfits); [|exact Hr].
  apply counted_initial; [done|done|lia].
Qed.

Lemma counted_joined (T F : Z) (s : State) :
  counted T F s -> joined T s = true ->
  Forall (fun w => pc w = Finished) (workers s).
Proof.
  intros (HT & _ & _ & Hbar & _) Hj.
  unfold joined in Hj. apply Z.eqb_eq in Hj.
  assert (Hall : countPC finished (workers s) = length (workers s)) by lia.
  apply countPC_all in Hall. eapply Forall_impl; [exact Hall|].
  intros w Hw. simpl in Hw. by destruct (pc w).
Qed.

(** The barrier of [main] is a join: in whatever order the goroutines
    run, [barrier == threads] holds only when every goroutine has
    finished, so no frame is written once main has moved on. *)
Theorem barrier_joins `{ColorLib} (sh : Shared)
    (frames : list (option Paletted)) (threads : Z) (s : State) :
  1 <= framesPerThread sh -> 1 <= threads ->
  len frames + threads <= GoInt.maxInt ->
  reachable sh (initial frames threads) s ->
  joined threads s = true ->
  Z.of_nat (length (workers s)) = threads /\
  Forall (fun w => pc w = Finished) (workers s).
Proof.
  intros Hq Ht Hfits Hr Hj.
  pose proof (reachable_counted sh frames threads s Hq Ht Hfits Hr) as Hc.
  split; [by destruct Hc|]. by eapply counted_joined.
Qed.

Lemma barrier_joins_witness :
  let img := Sample.animation [Sample.frame0; Sample.frame1] in
  let sh := {| img_Image := Image img;
               overlayColors :=
                 @generate Sample.lib (newGradient rainbow true) 2;
               framesPerThread := 2 |} in
  let frames := replicate 2 (Some newPaletted) in
  exists s,
    @run Sample.lib sh Sample.bothAtZero (initial frames 2) = Running s /\
    joined 2 s = true /\
    Z.of_nat (length (workers s)) = 2 /\
    Forall (fun w => pc w = Finished) (workers s).
Proof.
  intros img sh frames.
  assert (Hr : exists s,
            @run Sample.lib sh Sample.bothAtZero (initial frames 2)
            = Running s /\ joined 2 s = true).
  { eexists. split; vm_compute; reflexivity. }
  destruct Hr as (s & Hr & Hj). exists s. split; [exact Hr|].
  split; [exact Hj|].
  apply (@barrier_joins Sample.lib sh frames 2 s);
    [vm_compute; discriminate|vm_compute; discriminate|
     vm_compute; discriminate|by exists Sample.bothAtZero|exact Hj].
Defined.

(** Once every goroutine has been joined, [frameIndex] has reached
    [frameCount] and [prepareFrame] has been called at least
    [frameCount] times, however the goroutines interleaved: a slot that
    the race skipped is paid for by a slot prepared more than once. *)
Theorem calls_when_joined `{ColorLib} (sh : Shared)
    (frames : list (option Paletted)) (threads : Z) (s : State) :
  1 <= framesPerThread sh -> 1 <= threads ->
  len frames + threads <= GoInt.maxInt ->
  reachable sh (initial frames threads) s ->
  joined threads s = true ->
  len frames <= frameIndex s <= len (log s).
Proof.
  intros Hq Ht Hfits Hr Hj.
  pose proof (reachable_counted sh frames threads s Hq Ht Hfits Hr) as Hc.
  pose proof (counted_joined _ _ s Hc Hj) as Hall.
  destruct Hc as (HT & HF & _ & Hbar & Hfi & Hlog & Hflight & Hleft).
  unfold len in *.
  assert (Hl : countPC left (workers s) = length (workers s)).
  { pose proof (countPC_le left (workers s)).
    assert (Hfin : countPC finished (workers s) = length (workers s)).
    { unfold joined in Hj. apply Z.eqb_eq in Hj. lia. }
    pose proof (countPC_mono finished left (workers s)
                  ltac:(by intros []; simpl)). lia. }
  specialize (Hleft ltac:(lia)). lia.
Qed.

Lemma calls_when_joined_witness :
  let img := Sample.animation [Sample.frame0; Sample.frame1] in
  let sh := {| img_Image := Image img;
               overlayColors :=
                 @generate Sample.lib (newGradient rainbow true) 2;
               framesPerThread := 2 |} in
  let frames := replicate 2 (Some newPaletted) in
  exists s,
    @run Sample.lib sh Sample.bothAtZero (initial frames 2) = Running s /\
    joined 2 s = true /\
    slot <$> log s = [0; 0] /\
    len frames <= frameIndex s <= len (log s).
Proof.
  intros img sh frames.
  assert (Hr : exists s,
            @run Sample.lib sh Sample.bothAtZero (initial frames 2)
            = Running s /\ joined 2 s = true /\ slot <$> log s = [0; 0]).
  { eexists. split; [vm_compute; reflexivity|]. by vm_compute. }
  destruct Hr as (s & Hr & Hj & Hl). exists s. split; [exact Hr|].
  split; [exact Hj|]. split; [exact Hl|].
  apply (@calls_when_joined Sample.lib sh frames 2 s);
    [vm_compute; discriminate|vm_compute; discriminate|
     vm_compute; discriminate|by exists Sample.bothAtZero|exact Hj].
Defined.

Section Panics.
Context `{ColorLib}.
Variable sh : Shared.

Lemma work_panics t s p :
  Forall wellFormedFrame (img_Image sh) ->
  Forall is_Some (newFrames s) ->
  work sh t s = inr p -> p = IndexOutOfRange.
Proof.
  intros Hwf Hsome. unfold work.
  destruct (idx (img_Image sh) _) as [src|] eqn:Hsrc; [|by intros [= <-]].
  destruct (idx (newFrames s) _) as [dst|] eqn:Hdst; [|by intros [= <-]].
  destruct (idx (overlayColors sh) _) as [o|]; [|by intros [= <-]].
  assert (Hin : src ∈ img_Image sh).
  { unfold idx in Hsrc. destruct (_ <? _); [done|].
    by eapply list_elem_of_lookup_2. }
  eapply Forall_forall in Hin; [|exact Hwf].
  destruct Hin as (fr & -> & Hnil).
  assert (Hd : dst ∈ newFrames s).
  { unfold idx in Hdst. destruct (_ <? _); [done|].
    by eapply list_elem_of_lookup_2. }
  eapply Forall_forall in Hd; [|exact Hsome]. destruct Hd as [d ->].
  by destruct (prepareFrame_total fr d o Hnil) as [? ->].
Qed.

Lemma run_panics schedule :
  Forall wellFormedFrame (img_Image sh) ->
  forall s p s',
    Forall is_Some (newFrames s) ->
    run sh schedule s = Panics p s' -> p = IndexOutOfRange.
Proof.
  intros Hwf. induction schedule as [|t schedule IH];
    intros s p s' Hsome Hr; simpl in Hr; [done|].
  destruct (step sh t s) as [s1|q s1|] eqn:Hs; [| |done].
  - apply step_preserved in Hs as (_ & _ & Hp & _).
    eapply IH; [|exact Hr]. by apply Hp.
  - injection Hr as -> ->. unfold step in Hs.
    destruct (workers s !! t) as [w|]; [|done].
    destruct (pc w); try done; try (by repeat case_match).
    destruct (work sh t s) as [s2|q] eqn:Hw; [done|].
    injection Hs as -> _. by eapply work_panics.
Qed.

Lemma step_idle t s :
  idle s ->
  match step sh t s with
  | Running s' => idle s'
  | Panics _ _ => False
  | NotRunnable => True
  end.
Proof.
  intros (Hnew & Hlog & Hfi & Hws). unfold step.
  destruct (workers s !! t) as [w|] eqn:Hw; [|done].
  pose proof (Forall_lookup_1 _ _ _ _ Hws Hw) as [Hfl Hnorm].
  assert (Hset : forall p, inFlight p = false -> p <> AtIncNorm ->
            idle (setPC t w p s)).
  { intros p Hp1 Hp2. unfold idle, setPC. simpl.
    repeat split; try done. by apply Forall_insert. }
  destruct (pc w) eqn:Epc; try done.
  - destruct (_ <? _); by apply Hset.
  - rewrite Hfi, Hnew. simpl. by apply Hset.
  - unfold idle, setPC, set_barrier. simpl.
    repeat split; try done. by apply Forall_insert.
Qed.

Lemma run_idle schedule :
  forall s, idle s ->
    match run sh schedule s with
    | Running s' => idle s'
    | Panics _ _ => False
    | NotRunnable => True
    end.
Proof.
  induction schedule as [|t schedule IH]; intros s Hs; simpl; [done|].
  pose proof (step_idle t s Hs) as Hst.
  destruct (step sh t s); [by apply IH|done|done].
Qed.

Lemma idle_initial threads : idle (initial [] threads).
Proof.
  unfold idle, initial, spawn. simpl. repeat split; try done.
  apply Forall_fmap, Forall_forall. done.
Qed.
End Panics.

(** With source frames as the decoder gives them, the only panic the
    goroutines can raise is an index out of range: a nil pointer or a nil
    colour is never met, under any schedule and for any number of
    goroutines. *)
Theorem frame_loop_panics_out_of_range `{ColorLib} (sh : Shared)
    (frames : list (option Paletted)) (threads : Z) (schedule : list nat)
    (p : Panic) (s : State) :
  Forall wellFormedFrame (img_Image sh) ->
  Forall is_Some frames ->
  run sh schedule (initial frames threads) = Panics p s ->
  p = IndexOutOfRange.
Proof.
  intros Hwf Hsome Hr.
  exact (run_panics sh schedule Hwf (initial frames threads) p s Hsome Hr).
Qed.

Lemma frame_loop_panics_out_of_range_witness :
  let img := Sample.animation [Sample.frame0] in
  let sh := {| img_Image := Image img;
               overlayColors :=
                 @generate Sample.lib (newGradient rainbow true) 1;
               framesPerThread := 1 |} in
  let frames := [Some newPaletted] in
  exists p s,
    @run Sample.lib sh Sample.pastTheEnd (initial frames 2) = Panics p s /\
    frameIndex s = 1 /\
    p = IndexOutOfRange.
Proof.
  intros img sh frames.
  assert (Hr : exists p s,
            @run Sample.lib sh Sample.pastTheEnd (initial frames 2)
            = Panics p s /\ frameIndex s = 1).
  { eexists _, _. split; vm_compute; reflexivity. }
  destruct Hr as (p & s & Hr & Hfi). exists p, s.
  split; [exact Hr|]. split; [exact Hfi|].
  apply (@frame_loop_panics_out_of_range Sample.lib sh frames 2
           Sample.pastTheEnd p s); [| |exact Hr].
  - repeat constructor; eexists; (split; [reflexivity|]);
      intros Hin;
      repeat (apply elem_of_cons in Hin as [Hin|Hin]; [done|]);
      by apply elem_of_nil in Hin.
  - repeat constructor; eauto.
Defined.

(** When there is no output slot ([frameCount = 0]), no goroutine calls
    [prepareFrame] and none panics, whatever the schedule, the number of
    goroutines and the source frames. *)
Theorem no_slot_no_call `{ColorLib} (sh : Shared) (threads : Z)
    (schedule : list nat) :
  match run sh schedule (initial [] threads) with
  | Running s => log s = [] /\ newFrames s = [] /\ frameIndex s = 0
  | Panics _ _ => False
  | NotRunnable => True
  end.
Proof.
  pose proof (run_idle sh schedule _ (idle_initial threads)) as Hrun.
  destruct (run sh schedule (initial [] threads)) as [s| |]; [|done|done].
  by destruct Hrun as (? & ? & ? & _).
Qed.

(** When [len(img.Image) * loopCount] wraps to 0, the program prepares
    no frame and does not panic, whatever the schedule; if it gets to
    the encoder, it hands it an animation without frames, delays or
    disposal codes. *)
Theorem main_zero_frameCount `{ColorLib} (fl : Flags) (w : World)
    (schedule : list nat) (colors : list colorfulColor)
    (input output : string) (file : File) (img : GIF) :
  0 < threads fl ->
  parseGradientColors (gradientColors fl) = inl colors ->
  1 <= loopCount fl ->
  positionalArgs fl = [input; output] ->
  os_Open w input = inl file ->
  gif_DecodeAll w file = inl img ->
  frameCountOf img (loopCount fl) = 0 ->
  let r := main fl w schedule in
  prepared r = [] /\
  (forall p, status r <> Crashed p) /\
  (forall out g, encoded r = Some (out, g) ->
     Image g = [] /\ Delay g = [] /\ Disposal g = []).
Proof.
  intros Ht Hp Hl Ha Ho Hd Hzero r. subst r. unfold main, process.
  destruct (Z.leb_spec (threads fl) 0); [lia|]. rewrite Hp.
  destruct (Z.ltb_spec (loopCount fl) 1); [lia|].
  rewrite Ha, Ho, Hd, Hzero.
  change (allocFrames 0) with (Some (@nil (option Paletted))). cbv iota.
  unfold framesPerThreadOf, GoInt.div.
  destruct (Z.eqb_spec (threads fl) 0); [lia|]. cbv iota.
  match goal with
  | |- context [run ?sh schedule _] =>
      pose proof (run_idle sh schedule _ (idle_initial (threads fl)))
        as Hrun;
      destruct (run sh schedule (initial [] (threads fl))) as [s| |]
  end; [|done|by repeat split].
  destruct Hrun as (Hnew & Hlog & _).
  destruct (joined (threads fl) s); [|by repeat split].
  unfold finish. rewrite Hnew, Hlog. simpl length.
  change (cycled (Delay img) 0) with (@inl (list Z) Panic []).
  change (cycled (Disposal img) 0) with (@inl (list Z) Panic []).
  cbv iota.
  destruct (os_OpenFile w output) as [out|]; [|by repeat split].
  destruct (gif_EncodeAll w out _); simpl;
    (split; [done|]); (split; [done|]); by intros ? ? [= <- <-].
Qed.

Lemma main_zero_frameCount_witness :
  let img := Sample.animation
               [Sample.frame0; Sample.frame1; Sample.frame2; Sample.frame0] in
  let fl := Sample.flags 2 "" (2 ^ 62) in
  let r := @main Sample.lib fl (Sample.world img) (alone 0 3 ++ alone 1 3) in
  frameCountOf img (loopCount fl) = 0 /\
  status r = Returned /\
  prepared r = [] /\
  (forall p, status r <> Crashed p) /\
  (forall out g, encoded r = Some (out, g) ->
     Image g = [] /\ Delay g = [] /\ Disposal g = []).
Proof.
  intros img fl r.
  assert (Hz : frameCountOf img (loopCount fl) = 0)
    by (vm_compute; reflexivity).
  split; [exact Hz|]. split; [vm_compute; reflexivity|].
  apply (@main_zero_frameCount Sample.lib fl (Sample.world img) _
           rainbow "in.gif" "out.gif" "in.gif" img);
    try reflexivity; vm_compute; discriminate.
Defined.

Section Solo.
Context `{ColorLib}.
Variable sh : Shared.
Variable F : Z.
Hypothesis Hsources : 1 <= len (img_Image sh) <= GoInt.maxInt.
Hypothesis Hwf : Forall wellFormedFrame (img_Image sh).
Hypothesis Hslots : F <= GoInt.maxInt.
Hypothesis Hoverlay : F <= len (overlayColors sh).

Local Abbreviation n := (len (img_Image sh)).

Lemma solo_setPC w p s :
  Z.of_nat (length (newFrames s)) = F ->
  Forall is_Some (newFrames s) ->
  workers s = [w] ->
  match p with
  | AtLoop | AtCheck =>
      0 <= frameIndex s <= F /\
      normalizedFrameIndex s = nfiAfter n (frameIndex s)
  | AtNormalize =>
      0 <= frameIndex s < F /\
      normalizedFrameIndex s = nfiAfter n (frameIndex s)
  | AtWork | AtIncFrame =>
      0 <= frameIndex s < F /\
      normalizedFrameIndex s = frameIndex s mod n
  | AtIncNorm =>
      1 <= frameIndex s <= F /\
      normalizedFrameIndex s = (frameIndex s - 1) mod n
  | AtSend | Finished => True
  end ->
  solo n F (setPC 0 w p s).
Proof.
  intros Hlen Hsome Hws Hp. unfold solo, setPC. simpl.
  split; [done|]. split; [done|]. exists (at_pc w p).
  split; [by rewrite Hws|]. done.
Qed.

Lemma normalize_solo s :
  0 <= frameIndex s ->
  normalizedFrameIndex s = nfiAfter n (frameIndex s) ->
  normalizedFrameIndex (normalize sh s) = frameIndex s mod n.
Proof.
  intros Hfi Hnfi.
  rewrite <- (Z2Nat.id (frameIndex s)) by done.
  apply (normalize_nfiAfter sh Hsources). by rewrite Z2Nat.id.
Qed.

Lemma step_solo t s :
  solo n F s ->
  match step sh t s with
  | Running s' => solo n F s'
  | Panics _ _ => False
  | NotRunnable => True
  end.
Proof.
  intros (Hlen & Hsome & w & Hws & Hpc). unfold step. rewrite Hws.
  destruct t as [|t]; [|done]. simpl lookup. cbv iota.
  assert (Hn : 1 <= n) by lia.
  destruct (pc w) eqn:Epc.
  - destruct (_ <? _); by apply solo_setPC.
  - destruct (Z.geb_spec (frameIndex s) (len (newFrames s))) as [Hge|Hlt];
      apply solo_setPC; try done.
    unfold len in Hlt. split; [lia|]. by destruct Hpc.
  - destruct Hpc as [Hfi Hnfi].
    destruct (normalize_fields sh s) as (N1 & N2 & N3 & N4 & N5).
    apply solo_setPC; rewrite ?N1, ?N2, ?N3; try done.
    split; [done|]. apply normalize_solo; [lia|done].
  - destruct Hpc as [Hfi Hnfi]. unfold work.
    pose proof (Z.mod_pos_bound (frameIndex s) n ltac:(lia)) as Hmod.
    destruct (idx_is_Some (img_Image sh) (normalizedFrameIndex s))
      as [fsrc Hsrc]; [rewrite Hnfi; lia|].
    destruct (idx_is_Some (newFrames s) (frameIndex s)) as [fdst Hdst];
      [unfold len; lia|].
    destruct (idx_is_Some (overlayColors sh) (frameIndex s)) as [o Ho];
      [lia|].
    rewrite Hsrc, Hdst, Ho.
    assert (Hin : fsrc ∈ img_Image sh).
    { unfold idx in Hsrc. destruct (_ <? _); [done|].
      by eapply list_elem_of_lookup_2. }
    eapply Forall_forall in Hin; [|exact Hwf].
    destruct Hin as (src & -> & Hnil).
    assert (Hd : fdst ∈ newFrames s).
    { unfold idx in Hdst. destruct (_ <? _); [done|].
      by eapply list_elem_of_lookup_2. }
    eapply Forall_forall in Hd; [|exact Hsome]. destruct Hd as [dst ->].
    destruct (prepareFrame_total src dst o Hnil) as [dst' ->].
    apply solo_setPC; simpl; try done.
    + by rewrite length_insert.
    + apply Forall_insert; eauto.
  - destruct Hpc as [Hfi Hnfi].
    apply solo_setPC; simpl; try done.
    unfold GoInt.add. rewrite wrap_inRange
      by (unfold GoInt.inRange, GoInt.minInt, GoInt.maxInt, GoInt.bits in *;
          lia).
    split; [lia|]. rewrite Hnfi. f_equal. lia.
  - destruct Hpc as [Hfi Hnfi].
    pose proof (Z.mod_pos_bound (frameIndex s - 1) n ltac:(lia)) as Hmod.
    apply solo_setPC; simpl; try done.
    unfold GoInt.add. rewrite wrap_inRange
      by (unfold GoInt.inRange, GoInt.minInt, GoInt.maxInt, GoInt.bits in *;
          lia).
    split; [lia|]. rewrite Hnfi. unfold nfiAfter.
    by destruct (Z.eqb_spec (frameIndex s) 0) as [Hz|Hz]; [lia|].
  - by apply solo_setPC.
  - done.
Qed.

Lemma run_solo schedule :
  forall s, solo n F s ->
    match run sh schedule s with
    | Running s' => solo n F s'
    | Panics _ _ => False
    | NotRunnable => True
    end.
Proof.
  induction schedule as [|t schedule IH]; intros s Hs; simpl; [done|].
  pose proof (step_solo t s Hs) as Hst.
  destruct (step sh t s); [by apply IH|done|done].
Qed.

End Solo.

(** With [threads = 1] the frame loop never panics, whatever the
    schedule: every index the single goroutine uses is within bounds,
    because where it stands fixes how [frameIndex] and
    [normalizedFrameIndex] are related. *)
Theorem single_goroutine_never_panics `{ColorLib} (sh : Shared)
    (frames : list (option Paletted)) (schedule : list nat) :
  1 <= len (img_Image sh) <= GoInt.maxInt ->
  Forall wellFormedFrame (img_Image sh) ->
  Forall is_Some frames ->
  len frames <= GoInt.maxInt ->
  len frames <= len (overlayColors sh) ->
  forall p s, run sh schedule (initial frames 1) <> Panics p s.
Proof.
  intros Hn Hwf Hsome HF Hov p s Hr.
  pose proof (run_solo sh (len frames) Hn Hwf HF Hov schedule
                (initial frames 1)) as Hrun.
  rewrite Hr in Hrun. apply Hrun.
  unfold solo, initial, spawn. simpl.
  split; [done|]. split; [done|]. eexists. split; [done|]. simpl.
  unfold len. split; [lia|done].
Qed.

Lemma single_goroutine_never_panics_witness :
  let img := Sample.animation [Sample.frame0; Sample.frame1] in
  let sh := {| img_Image := Image img;
               overlayColors :=
                 @generate Sample.lib (newGradient rainbow true) 4;
               framesPerThread := 3 |} in
  let frames := replicate 4 (Some newPaletted) in
  Forall wellFormedFrame (img_Image sh) /\
  len frames <= len (overlayColors sh) /\
  forall schedule p s,
    @run Sample.lib sh schedule (initial frames 1) <> Panics p s.
Proof.
  intros img sh frames.
  assert (Hwf : Forall wellFormedFrame (img_Image sh)).
  { repeat constructor; eexists; (split; [reflexivity|]);
      intros Hin;
      repeat (apply elem_of_cons in Hin as [Hin|Hin]; [done|]);
      by apply elem_of_nil in Hin. }
  assert (Hov : len frames <= len (overlayColors sh))
    by (vm_compute; discriminate).
  split; [exact Hwf|]. split; [exact Hov|].
  intros schedule.
  apply (@single_goroutine_never_panics Sample.lib sh frames schedule);
    [vm_compute; split; discriminate|exact Hwf|repeat constructor; eauto|
     vm_compute; discriminate|exact Hov].
Defined.
